(** * substring_search.c: a shallow embedding and its properties

    The program maps a file into memory, builds the Boyer-Moore
    bad-character table of a pattern, cuts the text into chunks, runs
    [search] on every chunk in a thread of its own and prints whether some
    thread found the pattern.

    Conventions of the embedding.
    - Memory reached through a [char *] is a [list byte], and a table is a
      list of 256 integers.
    - [int] values are integers of [Z], without wrap-around. The model
      agrees with the program as long as every [int] the program computes
      is at most [INT_MAX]. The bound is stated as a hypothesis on the
      lengths that lines 227 and 228 store in an [int] and on
      [chunkSize + extra] of line 290; within [search] the table of the
      pattern keeps every value between [-patternLength] and [textLength]
      ([search_step_shift_bounded]), and where a table of other entries is
      admitted its entries are bounded by hypothesis.
    - A read outside an array is where C gives the program no meaning: the
      model stops there with a [Fault] and says nothing of what a machine
      would go on to do with the value it finds.
    - Plain [char] is signed on the Windows ABIs the program is written for
      (it includes windows.h and process.h): [schar] is the value of a
      [char] read, [uchar] the value after a cast to [unsigned char].
    - What the operating system decides (whether the file opens, what the
      mapped view holds, whether a thread can be created, what the clock
      says) is an input, the record [OS].
    - What the program does to the outside is a list of [event]s. *)

From Stdlib Require Import ZArith Lia Strings.Byte Strings.Ascii Strings.String DecimalString.
From stdpp Require Import base list strings.

Local Open Scope Z_scope.

(** ** Constants *)

(** [#define UNIQUE_CHARS 256] *)
Definition UNIQUE_CHARS : Z := 256.

(** limits.h, for the 32-bit [int] of the Windows compilers *)
Definition INT_MAX : Z := 2147483647.

(** [#define MAX_THREADS 16] *)
Definition MAX_THREADS : Z := 16.

(** The [max] macro of the Windows headers:
    [#define max(a,b) (((a) > (b)) ? (a) : (b))]. *)
Definition max (a b : Z) : Z := if a >? b then a else b.

(** ** Faults and the error monad *)

Inductive fault : Type :=
| UnterminatedString            (* strlen found no NUL in the memory it may read *)
| BadTextIndex (i : Z)          (* text[i] outside the readable memory *)
| BadPatternIndex (i : Z)       (* pattern[i] outside the readable memory *)
| BadTableIndex (i : Z)         (* badCharShiftTable[i] with i outside [0, 256) *)
| OutOfFuel.                    (* a loop of the model ran out of iterations *)

Inductive result (A : Type) : Type :=
| Ok (a : A)
| Fault (f : fault).
Arguments Ok {A} a.
Arguments Fault {A} f.

(** [result] is a monad in stdpp's sense, so [x ← r; k] sequences two
    computations and stops at the first fault. *)
#[global] Instance result_bind : MBind result := λ A B k r,
  match r with
  | Ok a => k a
  | Fault f => Fault f
  end.

(** ** Bytes, chars and arrays *)

#[global] Instance byte_eq_decision : EqDecision byte := Byte.byte_eq_dec.

(** The value of a byte after [(unsigned char)]. *)
Definition uchar (b : byte) : Z := Z.of_N (Byte.to_N b).

(** The value of a byte read through a plain (signed) [char]. *)
Definition schar (b : byte) : Z :=
  if uchar b <? 128 then uchar b else uchar b - 256.

(** [mem[i]] for a [char *mem]. *)
Definition read (mem : list byte) (i : Z) : option byte :=
  if i <? 0 then None else mem !! Z.to_nat i.

Definition read_text (text : list byte) (i : Z) : result byte :=
  match read text i with
  | Some c => Ok c
  | None => Fault (BadTextIndex i)
  end.

Definition read_pattern (pattern : list byte) (i : Z) : result byte :=
  match read pattern i with
  | Some c => Ok c
  | None => Fault (BadPatternIndex i)
  end.

(** [badCharShiftTable[i]] for an array of [UNIQUE_CHARS] ints. *)
Definition read_table (badCharShiftTable : list Z) (i : Z) : result Z :=
  if (0 <=? i) && (i <? UNIQUE_CHARS) then
    match badCharShiftTable !! Z.to_nat i with
    | Some v => Ok v
    | None => Fault (BadTableIndex i)
    end
  else Fault (BadTableIndex i).

(** [strlen]: the number of bytes before the first NUL. *)
Fixpoint strlen (s : list byte) : result Z :=
  match s with
  | [] => Fault UnterminatedString
  | c :: s' =>
      if decide (c = x00) then Ok 0
      else n ← strlen s'; Ok (1 + n)
  end.

(** ** generateBadCharacterShiftTable *)

(** The caller's array [badCharShiftTable] comes in with whatever it holds
    and goes out filled. *)
Definition generateBadCharacterShiftTable
    (pattern : list byte) (patternLength : Z) (badCharShiftTable : list Z)
    : result (list Z) :=
  (* for (characterIndex = 0; characterIndex < UNIQUE_CHARS; characterIndex++) *)
  let cleared :=
    foldl (λ table characterIndex, <[Z.to_nat characterIndex := -1]> table)
          badCharShiftTable (seqZ 0 UNIQUE_CHARS) in
  (* for (patternIndex = 0; patternIndex < patternLength; patternIndex++) *)
  foldl (λ acc patternIndex,
           table ← acc;
           c ← read_pattern pattern patternIndex;
           Ok (<[Z.to_nat (uchar c) := patternIndex]> table))
        (Ok cleared) (seqZ 0 patternLength).

(** ** search *)

Record SearchArgs : Type := mkSearchArgs {
  text : list byte;
  textLength : Z;
  pattern : list byte;
  patternLength : Z;
  badCharShiftTable : list Z;
  found_at : Z
}.

Definition set_found_at (args : SearchArgs) (v : Z) : SearchArgs :=
  {| text := text args; textLength := textLength args;
     pattern := pattern args; patternLength := patternLength args;
     badCharShiftTable := badCharShiftTable args; found_at := v |}.

(** The inner loop
    [while (patternIndex >= 0 &&
            pattern[patternIndex] == text[patternShift + patternIndex])
       patternIndex--;]
    returns the final [patternIndex]. *)
Fixpoint compare_backward (fuel : nat) (text pattern : list byte)
    (patternShift patternIndex : Z) : result Z :=
  if patternIndex >=? 0 then
    match fuel with
    | O => Fault OutOfFuel
    | S fuel' =>
        p ← read_pattern pattern patternIndex;
        t ← read_text text (patternShift + patternIndex);
        if schar p =? schar t
        then compare_backward fuel' text pattern patternShift (patternIndex - 1)
        else Ok patternIndex
    end
  else Ok patternIndex.

(** One iteration of the outer loop, entered with
    [patternShift <= textLength - patternLength]. *)
Inductive step : Type :=
| Return (found_at : Z)
| Continue (patternShift : Z).

Definition search_step (args : SearchArgs) (patternShift : Z) : result step :=
  patternIndex ← compare_backward (Z.to_nat (patternLength args))
                   (text args) (pattern args) patternShift
                   (patternLength args - 1);
  if patternIndex <? 0 then Ok (Return patternShift)
  else
    c ← read_text (text args) (patternShift + patternIndex);
    entry ← read_table (badCharShiftTable args) (schar c);
    Ok (Continue (patternShift + max 1 (patternIndex - entry))).

(** The outer loop
    [while (patternShift <= (textLength - patternLength)) ...]
    returns the value stored in [found_at]. *)
Fixpoint search_loop (fuel : nat) (args : SearchArgs) (patternShift : Z)
    : result Z :=
  if patternShift <=? textLength args - patternLength args then
    match fuel with
    | O => Fault OutOfFuel
    | S fuel' =>
        s ← search_step args patternShift;
        match s with
        | Return found => Ok found
        | Continue patternShift' => search_loop fuel' args patternShift'
        end
    end
  else Ok (-1).

(** Iterations that always suffice: the shift grows by one at least. *)
Definition search_fuel (args : SearchArgs) : nat :=
  Z.to_nat (textLength args - patternLength args + 1).

Definition search (args : SearchArgs) : result SearchArgs :=
  found ← search_loop (search_fuel args) args 0;
  Ok (set_found_at args found).

(** ** The operating system and the trace of effects *)

(** What the operating system answers during one run. *)
Record OS : Type := mkOS {
  (* CreateFile: [None] is a handle, [Some e] is INVALID_HANDLE_VALUE with
     GetLastError() = e *)
  create_file : option Z;
  (* CreateFileMapping: [None] is a handle, [Some e] is NULL *)
  create_file_mapping : option Z;
  (* MapViewOfFile: the memory readable from the returned pointer, or NULL *)
  map_view_of_file : Z + list byte;
  (* _beginthreadex for thread [threadIndex]: does it return a handle *)
  begin_thread : Z → bool;
  (* the text that %.6f prints for (end_time - start_time) / CLOCKS_PER_SEC *)
  elapsed : string
}.

Inductive event : Type :=
| Printf (s : string)
| CallGenerateTable                    (* generateBadCharacterShiftTable(...) *)
| BeginThread (threadIndex : Z)        (* _beginthreadex(..., &search, ...) *)
| WaitForSingleObject (threadIndex : Z)
| CloseThread (threadIndex : Z)        (* CloseHandle(threads[threadIndex]) *)
| UnmapViewOfFile
| CloseMapping                         (* CloseHandle(fileMapping) *)
| CloseFile.                           (* CloseHandle(file) *)

#[global] Instance event_eq_decision : EqDecision event.
Proof. solve_decision. Defined.

(** winerror.h *)
Definition ERROR_FILE_NOT_FOUND : Z := 2.
Definition ERROR_ACCESS_DENIED : Z := 5.

Definition nl : string := String "010"%char EmptyString.

(** %lu *)
Definition show_ulong (n : Z) : string :=
  NilZero.string_of_uint (N.to_uint (Z.to_N n)).

Definition open_error_message (file_name : string) (error : Z) : string :=
  if error =? ERROR_FILE_NOT_FOUND then
    "File not found: " +:+ file_name +:+ nl
  else if error =? ERROR_ACCESS_DENIED then
    "Access denied: " +:+ file_name +:+ nl
  else
    "An unexpected error occurred opening " +:+ file_name +:+ ": "
      +:+ show_ulong error +:+ nl.

Definition mapping_error_message (error : Z) : string :=
  "Could not create file mapping. Error: " +:+ show_ulong error +:+ nl.

Definition view_error_message (error : Z) : string :=
  "Could not map view of file. Error: " +:+ show_ulong error +:+ nl.

Definition file_empty_message (file_name : string) : string :=
  "File is empty: " +:+ file_name +:+ nl.

Definition pattern_empty_message : string :=
  "Pattern is empty, nothing to search for." +:+ nl.

Definition pattern_too_long_message : string :=
  "Pattern length is greater than the file content length, pattern will not be found."
    +:+ nl.

Definition thread_failed_message : string :=
  "Thread creation failed." +:+ nl.

(** The format of line 326, with %s and %.6f filled in. *)
Definition found_message (substring : string) (seconds : string) : string :=
  "Found '" +:+ substring +:+ "'" +:+ nl
    +:+ "Time taken: " +:+ seconds +:+ " seconds" +:+ nl.

(** The format of line 332, with %s and %.6f filled in. *)
Definition not_found_message (substring : string) (seconds : string) : string :=
  "'" +:+ substring +:+ "' not found in the file. Searched in "
    +:+ seconds +:+ " seconds." +:+ nl.

(** The message that the specification gives for a found pattern:
    [{pattern} found at offset {absolute_offset}, elapsed {duration}]. *)
Definition spec_found_message (pattern : string) (absolute_offset : Z)
    (duration : string) : string :=
  pattern +:+ " found at offset " +:+ show_ulong absolute_offset
    +:+ ", elapsed " +:+ duration.

(** What %s prints of a [char *] whose [strlen] is [len]. *)
Definition show_c_string (s : list byte) (len : Z) : string :=
  string_of_list_byte (take (Z.to_nat len) s).

(** ** search_in_file *)

(** Lines 256 to 265: [(chunkSize, extra, numThreads)]. The operators [/]
    and [%] of C are [Z.quot] and [Z.rem]. *)
Definition chunking (textLength patternLength : Z) : Z * Z * Z :=
  let chunkSize := textLength ÷ MAX_THREADS in
  let extra := Z.rem textLength MAX_THREADS in
  let numThreads := MAX_THREADS in
  if chunkSize <? patternLength
  then (textLength, extra, 1)
  else (chunkSize, extra, numThreads).

(** Lines 289 to 294: the arguments handed to thread [threadIndex]. The
    pointer [fileContent + threadIndex * chunkSize] reaches the memory from
    that offset on. *)
Definition thread_args (fileContent substring : list byte) (patternLength : Z)
    (table : list Z) (chunkSize extra numThreads threadIndex : Z) : SearchArgs :=
  {| text := drop (Z.to_nat (threadIndex * chunkSize)) fileContent;
     textLength := if threadIndex =? numThreads - 1
                   then chunkSize + extra else chunkSize;
     pattern := substring;
     patternLength := patternLength;
     badCharShiftTable := table;
     found_at := -1 |}.

(** Lines 287 to 312, over the thread indices still to start: the events,
    and the arguments of the started threads unless a creation failed. *)
Fixpoint dispatch_loop (os : OS) (args_of : Z → SearchArgs)
    (threadIndices : list Z) : list event * option (list SearchArgs) :=
  match threadIndices with
  | [] => ([], Some [])
  | threadIndex :: rest =>
      if begin_thread os threadIndex then
        let '(events, started) := dispatch_loop os args_of rest in
        (BeginThread threadIndex :: events,
         (λ l, args_of threadIndex :: l) <$> started)
      else
        (Printf thread_failed_message
           :: (CloseThread <$> seqZ 0 threadIndex)
           ++ [UnmapViewOfFile; CloseMapping; CloseFile],
         None)
  end.

(** The threads that line 295 has started when the loop of line 287 ends
    or returns: the indices up to the first one that cannot be created. *)
Fixpoint started_threads (os : OS) (threadIndices : list Z) : list Z :=
  match threadIndices with
  | [] => []
  | threadIndex :: rest =>
      if begin_thread os threadIndex
      then threadIndex :: started_threads os rest
      else []
  end.

(** Every started thread runs [search] on its own arguments; the threads
    share nothing they write to. *)
Fixpoint run_threads (searchArgs : list SearchArgs) : result (list SearchArgs) :=
  match searchArgs with
  | [] => Ok []
  | args :: rest =>
      args' ← search args;
      rest' ← run_threads rest;
      Ok (args' :: rest')
  end.

(** Lines 315 to 337, from thread [threadIndex] on. *)
Fixpoint join_loop (substring seconds : string) (threadIndex : Z)
    (searchArgs : list SearchArgs) : list event :=
  match searchArgs with
  | [] =>
      [Printf (not_found_message substring seconds);
       UnmapViewOfFile; CloseMapping; CloseFile]
  | args :: rest =>
      WaitForSingleObject threadIndex :: CloseThread threadIndex ::
        (if found_at args >=? 0
         then [Printf (found_message substring seconds)]
         else join_loop substring seconds (threadIndex + 1) rest)
  end.

(** The values of [threadIndex] and [found_at] when [join_loop] leaves
    through its [return]. *)
Fixpoint first_found (threadIndex : Z) (searchArgs : list SearchArgs)
    : option (Z * Z) :=
  match searchArgs with
  | [] => None
  | args :: rest =>
      if found_at args >=? 0 then Some (threadIndex, found_at args)
      else first_found (threadIndex + 1) rest
  end.

(** Lines 247 to 337, once the three validation tests have passed. *)
Definition search_chunks (os : OS) (fileContent substring : list byte)
    (textLength patternLength : Z) : result (list event) :=
  (* the local array is not initialised; the builder overwrites all of it *)
  table ← generateBadCharacterShiftTable substring patternLength
             (replicate (Z.to_nat UNIQUE_CHARS) 0);
  let '(chunkSize, extra, numThreads) := chunking textLength patternLength in
  let args_of :=
    thread_args fileContent substring patternLength table
                chunkSize extra numThreads in
  match dispatch_loop os args_of (seqZ 0 numThreads) with
  | (events, None) =>
      (* the function returns without a wait for the threads it started:
         they run [search] on their chunks all the same, and a fault of one
         of them is a fault of the program *)
      _ ← run_threads
            (args_of <$> started_threads os (seqZ 0 numThreads));
      Ok (CallGenerateTable :: events)
  | (events, Some searchArgs) =>
      finished ← run_threads searchArgs;
      Ok (CallGenerateTable :: events
            ++ join_loop (show_c_string substring patternLength) (elapsed os)
                 0 finished)
  end.

Definition search_in_file (os : OS) (file_name : string) (substring : list byte)
    : result (list event) :=
  match create_file os with
  | Some error => Ok [Printf (open_error_message file_name error)]
  | None =>
  match create_file_mapping os with
  | Some error => Ok [Printf (mapping_error_message error); CloseFile]
  | None =>
  match map_view_of_file os with
  | inl error =>
      Ok [Printf (view_error_message error); CloseMapping; CloseFile]
  | inr fileContent =>
      textLength ← strlen fileContent;
      patternLength ← strlen substring;
      if textLength =? 0 then
        Ok [Printf (file_empty_message file_name)]
      else if patternLength =? 0 then
        Ok [Printf pattern_empty_message]
      else if patternLength >? textLength then
        Ok [Printf pattern_too_long_message]
      else
        search_chunks os fileContent substring textLength patternLength
  end end end.

(** * Specification vocabulary *)

(** [v] is the greatest index below [m] at which [pattern] holds [c], or
    [-1] when [c] does not occur there. *)
Definition rightmost (pattern : list byte) (m : Z) (c : byte) (v : Z) : Prop :=
  -1 <= v < m
  ∧ (0 <= v → read pattern v = Some c)
  ∧ ∀ j, v < j < m → read pattern j ≠ Some c.

(** [table] is the bad-character table of the first [m] bytes of
    [pattern]. *)
Definition table_for (pattern : list byte) (m : Z) (table : list Z) : Prop :=
  length table = Z.to_nat UNIQUE_CHARS
  ∧ ∀ c : byte,
      ∃ v, table !! Z.to_nat (uchar c) = Some v ∧ rightmost pattern m c v.

(** The first [m] bytes of [pattern] stand in [text] from offset [s] on. *)
Definition matches (text pattern : list byte) (m s : Z) : Prop :=
  ∀ j, 0 <= j < m → ∃ c, read pattern j = Some c ∧ read text (s + j) = Some c.

(** [p] stands in [b] at offset [i]: [b[i .. i + len p) = p]. *)
Definition occurs_at (b p : list byte) (i : Z) : Prop :=
  0 <= i ∧ take (length p) (drop (Z.to_nat i) b) = p.

#[global] Instance occurs_at_dec b p i : Decision (occurs_at b p i).
Proof. unfold occurs_at. apply _. Defined.

(** The chunk that [search_in_file] hands to thread [k], for a text of
    length [n] and a pattern of length [m]: where it starts, and the
    [textLength] the thread is given. *)
Definition num_threads (n m : Z) : Z := (chunking n m).2.
Definition chunk_start (n m k : Z) : Z := k * (chunking n m).1.1.
Definition chunk_length (n m k : Z) : Z :=
  let '(chunkSize, extra, numThreads) := chunking n m in
  if k =? numThreads - 1 then chunkSize + extra else chunkSize.

(** The [m] bytes from offset [i] on lie within the chunk of thread [k]. *)
Definition within_chunk (n m k i : Z) : Prop :=
  0 <= k < num_threads n m
  ∧ chunk_start n m k <= i
  ∧ i + m <= chunk_start n m k + chunk_length n m k.

#[global] Instance within_chunk_dec n m k i : Decision (within_chunk n m k i).
Proof. unfold within_chunk. apply _. Defined.

(** What the threads leave in [searchArgs] when every one of them was
    started and has returned. *)
Definition thread_results (fileContent substring : list byte)
    (textLength patternLength : Z) : result (list SearchArgs) :=
  table ← generateBadCharacterShiftTable substring patternLength
             (replicate (Z.to_nat UNIQUE_CHARS) 0);
  let '(chunkSize, extra, numThreads) := chunking textLength patternLength in
  run_threads (thread_args fileContent substring patternLength table
                           chunkSize extra numThreads <$> seqZ 0 numThreads).

(** The events of joining threads [j], [j + 1], ..., [j + count - 1]. *)
Definition join_events (j count : Z) : list event :=
  seqZ j count ≫= λ threadIndex,
    [WaitForSingleObject threadIndex; CloseThread threadIndex].

(** What thread [k] must leave in [found_at], for the text [b] of length
    [n] and the pattern [p] of length [m]: [-1] when [p] does not stand
    within its chunk, and otherwise the offset, from the start of the chunk,
    of the leftmost place where it does. *)
Definition thread_verdict (b p : list byte) (n m k r : Z) : Prop :=
  (r = -1 ∧ ∀ i, within_chunk n m k i → ¬ occurs_at b p i)
  ∨ (0 <= r
     ∧ within_chunk n m k (chunk_start n m k + r)
     ∧ occurs_at b p (chunk_start n m k + r)
     ∧ ∀ i, within_chunk n m k i → occurs_at b p i →
            chunk_start n m k + r <= i).

(** * Example environments *)

(** An operating system that opens and maps the file, whose view holds
    [view], that starts every thread, and whose clock makes %.6f print
    [seconds]. *)
Definition os_mapping (view : list byte) (seconds : string) : OS :=
  {| create_file := None;
     create_file_mapping := None;
     map_view_of_file := inr view;
     begin_thread := λ _, true;
     elapsed := seconds |}.

(** The events of table construction and of worker dispatch. *)
Definition is_scan_event (e : event) : bool :=
  match e with
  | CallGenerateTable | BeginThread _ => true
  | _ => false
  end.

(** * Tactics *)

(** Case analysis on the comparisons of [Z] that a goal tests. *)
Ltac cases_Z :=
  repeat match goal with
  | |- context [?a >? ?b] => rewrite (Z.gtb_ltb a b)
  | |- context [?a >=? ?b] => rewrite (Z.geb_leb a b)
  | |- context [?a <? ?b] => destruct (Z.ltb_spec a b)
  | |- context [?a <=? ?b] => destruct (Z.leb_spec a b)
  | |- context [?a =? ?b] => destruct (Z.eqb_spec a b)
  end.

(** * main *)

(** [search_in_file("textfile.txt", "ThisIsTheEnd"); return 0;] with the
    events of the call and the exit status. The string literal is its
    twelve bytes and their NUL. *)
Definition main (os : OS) : result (list event * Z) :=
  events ← search_in_file os "textfile.txt"
             (list_byte_of_string "ThisIsTheEnd" ++ [x00]);
  Ok (events, 0).

(** * Handles *)

Definition is_printf (e : event) : bool :=
  match e with
  | Printf _ => true
  | _ => false
  end.

(** The events that give up the view, the mapping or the file. *)
Definition is_release (e : event) : bool :=
  match e with
  | UnmapViewOfFile | CloseMapping | CloseFile => true
  | _ => false
  end.

(** What the process holds: the file handle, the mapping handle, the
    mapped view, and the handles of threads. *)
Record handles : Type := mkHandles {
  file_open : bool;
  mapping_open : bool;
  view_mapped : bool;
  threads_open : list Z
}.

Definition no_handles : handles :=
  {| file_open := false; mapping_open := false; view_mapped := false;
     threads_open := [] |}.

(** What lines 186 to 224 acquire before they fail or go on: CreateFile,
    then CreateFileMapping, then MapViewOfFile. *)
Definition acquired (os : OS) : handles :=
  match create_file os with
  | Some _ => no_handles
  | None =>
      match create_file_mapping os with
      | Some _ =>
          {| file_open := true; mapping_open := false; view_mapped := false;
             threads_open := [] |}
      | None =>
          match map_view_of_file os with
          | inl _ =>
              {| file_open := true; mapping_open := true;
                 view_mapped := false; threads_open := [] |}
          | inr _ =>
              {| file_open := true; mapping_open := true;
                 view_mapped := true; threads_open := [] |}
          end
      end
  end.

(** The effect of one event on what is held; [None] when the event uses a
    handle that is not held: a wait on, or a close of, a thread handle that
    is not open, a second unmap, a second close. *)
Definition handle_step (h : handles) (e : event) : option handles :=
  match e with
  | Printf _ | CallGenerateTable => Some h
  | BeginThread i =>
      if decide (i ∈ threads_open h) then None
      else Some {| file_open := file_open h; mapping_open := mapping_open h;
                   view_mapped := view_mapped h;
                   threads_open := threads_open h ++ [i] |}
  | WaitForSingleObject i =>
      if decide (i ∈ threads_open h) then Some h else None
  | CloseThread i =>
      if decide (i ∈ threads_open h)
      then Some {| file_open := file_open h; mapping_open := mapping_open h;
                   view_mapped := view_mapped h;
                   threads_open := filter (λ j, j ≠ i) (threads_open h) |}
      else None
  | UnmapViewOfFile =>
      if view_mapped h
      then Some {| file_open := file_open h; mapping_open := mapping_open h;
                   view_mapped := false; threads_open := threads_open h |}
      else None
  | CloseMapping =>
      if mapping_open h
      then Some {| file_open := file_open h; mapping_open := false;
                   view_mapped := view_mapped h;
                   threads_open := threads_open h |}
      else None
  | CloseFile =>
      if file_open h
      then Some {| file_open := false; mapping_open := mapping_open h;
                   view_mapped := view_mapped h;
                   threads_open := threads_open h |}
      else None
  end.

(** What is held after a trace, from what is held before it. *)
Fixpoint handles_after (h : handles) (trace : list event) : option handles :=
  match trace with
  | [] => Some h
  | e :: trace' =>
      match handle_step h e with
      | Some h' => handles_after h' trace'
      | None => None
      end
  end.


(** A text of 192 bytes, sixteen chunks of twelve, whose last chunk is the
    pattern of [main]. *)
Definition text_192 : list byte :=
  mjoin (replicate 15 (list_byte_of_string "0123456789ab"))
    ++ list_byte_of_string "ThisIsTheEnd".
(** * Properties *)

(** ** Bytes and chars *)

Lemma uchar_range (c : byte) : 0 <= uchar c < 256.
Proof. unfold uchar. pose proof (Byte.to_N_bounded c). lia. Qed.

Lemma uchar_inj (c d : byte) : uchar c = uchar d → c = d.
Proof.
  unfold uchar. intros H. apply N2Z.inj in H.
  pose proof (Byte.of_to_N c) as Hc. pose proof (Byte.of_to_N d) as Hd.
  rewrite H in Hc. congruence.
Qed.

Lemma schar_range (c : byte) : -128 <= schar c < 128.
Proof. unfold schar. pose proof (uchar_range c). cases_Z; lia. Qed.

Lemma schar_inj (c d : byte) : schar c = schar d → c = d.
Proof.
  unfold schar. intros H. apply uchar_inj.
  pose proof (uchar_range c). pose proof (uchar_range d).
  revert H. cases_Z; lia.
Qed.

Lemma schar_7bit (c : byte) : uchar c < 128 → schar c = uchar c.
Proof. unfold schar. intros H. cases_Z; lia. Qed.

Lemma schar_eqb (c d : byte) : (schar c =? schar d) = bool_decide (c = d).
Proof.
  case_bool_decide as H.
  - subst. apply Z.eqb_refl.
  - apply Z.eqb_neq. intros E. by apply H, schar_inj.
Qed.

(** ** Reads *)

Lemma read_Some (mem : list byte) (i : Z) (c : byte) :
  read mem i = Some c ↔ 0 <= i ∧ mem !! Z.to_nat i = Some c.
Proof.
  unfold read. destruct (Z.ltb_spec i 0) as [H|H].
  - split; [done | intros [? _]; lia].
  - split; [intros ?; split; [lia|done] | by intros [_ ?]].
Qed.

Lemma read_lt (mem : list byte) (i : Z) :
  0 <= i < Z.of_nat (length mem) → is_Some (read mem i).
Proof.
  intros H. unfold read. cases_Z; [lia|].
  apply lookup_lt_is_Some. lia.
Qed.

Lemma read_drop (mem : list byte) (k : nat) (i : Z) :
  0 <= i → read (drop k mem) i = read mem (Z.of_nat k + i).
Proof.
  intros H. unfold read. cases_Z; try lia.
  rewrite lookup_drop. f_equal. lia.
Qed.

Lemma read_app_l (l1 l2 : list byte) (i : Z) :
  i < Z.of_nat (length l1) → read (l1 ++ l2) i = read l1 i.
Proof.
  intros H. unfold read. cases_Z; [done|].
  apply lookup_app_l. lia.
Qed.

Lemma read_text_Ok (text : list byte) (i : Z) (c : byte) :
  read text i = Some c → read_text text i = Ok c.
Proof. unfold read_text. by intros ->. Qed.

Lemma read_pattern_Ok (pattern : list byte) (i : Z) (c : byte) :
  read pattern i = Some c → read_pattern pattern i = Ok c.
Proof. unfold read_pattern. by intros ->. Qed.

(** ** strlen *)

Lemma strlen_app (b rest : list byte) :
  Forall (λ c, c ≠ x00) b →
  strlen (b ++ x00 :: rest) = Ok (Z.of_nat (length b)).
Proof.
  induction 1 as [|c b Hc Hb IH]; simpl.
  - done.
  - rewrite decide_False by done. rewrite IH. simpl. f_equal. lia.
Qed.

Lemma strlen_Ok (s : list byte) (n : Z) :
  strlen s = Ok n →
  0 <= n ∧ Forall (λ c, c ≠ x00) (take (Z.to_nat n) s)
  ∧ s !! Z.to_nat n = Some x00.
Proof.
  revert n. induction s as [|c s IH]; intros n; simpl; [done|].
  case_decide as Hc.
  - intros [= <-]. subst. simpl. split; [lia|]. split; [constructor|done].
  - destruct (strlen s) as [k|f] eqn:E; simpl; [|done].
    intros [= <-]. destruct (IH k eq_refl) as (Hk & Hall & Hnul).
    replace (Z.to_nat (1 + k)) with (S (Z.to_nat k)) by lia. simpl.
    split; [lia|]. split; [by constructor|done].
Qed.

(** ** generateBadCharacterShiftTable *)

Lemma clear_loop (v : Z) (k : nat) (table : list Z) :
  (k ≤ length table)%nat →
  foldl (λ table characterIndex, <[Z.to_nat characterIndex := v]> table)
        table (seqZ 0 (Z.of_nat k))
  = replicate k v ++ drop k table.
Proof.
  induction k as [|k IH]; intros Hk.
  - by rewrite drop_0.
  - rewrite seqZ_S, foldl_snoc, IH by lia.
    destruct (lookup_lt_is_Some_2 table k) as [x Hx]; [lia|].
    rewrite (drop_S _ _ _ Hx).
    rewrite insert_app_r_alt by (rewrite length_replicate; lia).
    rewrite length_replicate.
    replace (Z.to_nat (0 + Z.of_nat k) - k)%nat with 0%nat by lia. simpl.
    rewrite cons_middle, app_assoc. f_equal.
    change [v] with (replicate 1 v). rewrite <- replicate_add.
    by replace (k + 1)%nat with (S k) by lia.
Qed.

Lemma rightmost_unique pattern m c v w :
  rightmost pattern m c v → rightmost pattern m c w → v = w.
Proof.
  intros (Hv & Hv1 & Hv2) (Hw & Hw1 & Hw2).
  destruct (Z.lt_trichotomy v w) as [H|[H|H]]; [|done|].
  - exfalso. apply (Hv2 w); [lia|]. apply Hw1. lia.
  - exfalso. apply (Hw2 v); [lia|]. apply Hv1. lia.
Qed.

Lemma fill_loop (pattern : list byte) (k : nat) (cleared : list Z) :
  (k ≤ length pattern)%nat →
  cleared = replicate (Z.to_nat UNIQUE_CHARS) (-1) →
  ∃ table,
    foldl (λ acc patternIndex,
             table ← acc;
             c ← read_pattern pattern patternIndex;
             Ok (<[Z.to_nat (uchar c) := patternIndex]> table))
          (Ok cleared) (seqZ 0 (Z.of_nat k)) = Ok table
    ∧ table_for pattern (Z.of_nat k) table.
Proof.
  intros Hk ->. induction k as [|k IH].
  - eexists. split; [done|]. split; [by rewrite length_replicate|].
    intros c. exists (-1). split.
    + apply lookup_replicate_2. pose proof (uchar_range c). unfold UNIQUE_CHARS. lia.
    + split; [lia|]. split; intros; lia.
  - destruct IH as (table & Hfold & Hlen & Htab); [lia|].
    rewrite seqZ_S, foldl_snoc, Hfold, Z.add_0_l. simpl.
    destruct (lookup_lt_is_Some_2 pattern k) as [d Hd]; [lia|].
    assert (read pattern (Z.of_nat k) = Some d) as Hrd.
    { apply read_Some. split; [lia|]. by rewrite Nat2Z.id. }
    rewrite (read_pattern_Ok _ _ _ Hrd). simpl.
    eexists. split; [done|]. split; [by rewrite length_insert|].
    intros c. destruct (decide (c = d)) as [->|Hne].
    + exists (Z.of_nat k). split.
      * apply list_lookup_insert_eq. rewrite Hlen.
        pose proof (uchar_range d). unfold UNIQUE_CHARS. lia.
      * split; [lia|]. split; [done|]. intros; lia.
    + destruct (Htab c) as (v & Hv & Hr & Hr1 & Hr2). exists v. split.
      * rewrite list_lookup_insert_ne; [done|].
        intros E. apply Hne. apply uchar_inj.
        pose proof (uchar_range c). pose proof (uchar_range d). lia.
      * split; [lia|]. split; [done|]. intros j Hj.
        destruct (decide (j = Z.of_nat k)) as [->|Hjk].
        -- rewrite Hrd. congruence.
        -- apply Hr2. lia.
Qed.

Lemma generateBadCharacterShiftTable_spec pattern m table0 :
  0 <= m <= Z.of_nat (length pattern) →
  length table0 = Z.to_nat UNIQUE_CHARS →
  ∃ table, generateBadCharacterShiftTable pattern m table0 = Ok table
           ∧ table_for pattern m table.
Proof.
  intros Hm Hlen. unfold generateBadCharacterShiftTable.
  change (seqZ 0 UNIQUE_CHARS) with (seqZ 0 (Z.of_nat (Z.to_nat UNIQUE_CHARS))).
  rewrite clear_loop by lia. rewrite drop_ge, app_nil_r by lia.
  replace m with (Z.of_nat (Z.to_nat m)) by lia.
  apply fill_loop; [lia|done].
Qed.

(** ** The inner loop *)

Lemma compare_backward_spec fuel text pattern s idx :
  (Z.to_nat (idx + 1) ≤ fuel)%nat →
  (∀ i, 0 <= i <= idx → is_Some (read pattern i) ∧ is_Some (read text (s + i))) →
  ∃ j, compare_backward fuel text pattern s idx = Ok j
       ∧ j <= idx ∧ (-1 <= idx → -1 <= j)
       ∧ (∀ i, j < i <= idx → read pattern i = read text (s + i))
       ∧ (0 <= j → read pattern j ≠ read text (s + j)).
Proof.
  revert idx. induction fuel as [|fuel IH]; intros idx Hf Hrd; simpl; cases_Z.
  - lia.
  - exists idx. repeat split; intros; lia.
  - destruct (Hrd idx) as [[p Hp] [t Ht]]; [lia|].
    rewrite (read_pattern_Ok _ _ _ Hp), (read_text_Ok _ _ _ Ht). simpl.
    rewrite schar_eqb. case_bool_decide as E.
    + subst t. destruct (IH (idx - 1)) as (j & -> & Hj1 & Hj2 & Hj3 & Hj4).
      { lia. } { intros i Hi. apply Hrd. lia. }
      exists j. split; [done|]. split; [lia|]. split; [lia|]. split; [|done].
      intros i Hi. destruct (decide (i = idx)) as [->|]; [congruence|].
      apply Hj3. lia.
    + exists idx. split; [done|]. split; [lia|]. split; [lia|].
      split; [intros; lia|]. intros _. congruence.
  - exists idx. repeat split; intros; lia.
Qed.

Lemma compare_backward_fuel fuel text pattern s idx :
  (Z.to_nat (idx + 1) ≤ fuel)%nat →
  compare_backward fuel text pattern s idx ≠ Fault OutOfFuel.
Proof.
  revert idx. induction fuel as [|fuel IH]; intros idx Hf; simpl; cases_Z;
    try done; try lia.
  unfold read_pattern, read_text.
  destruct (read pattern idx); simpl; [|done].
  destruct (read text (s + idx)); simpl; [|done].
  case_match; [|done]. apply IH. lia.
Qed.

(** ** One iteration of the outer loop *)

Lemma max_1_ge (x : Z) : 1 <= max 1 x.
Proof. unfold max. cases_Z; lia. Qed.

Lemma max_1_le (x m : Z) : 1 <= m → x <= m → max 1 x <= m.
Proof. unfold max. cases_Z; lia. Qed.

Lemma read_table_7bit pattern m table c :
  table_for pattern m table → uchar c < 128 →
  ∃ v, read_table table (schar c) = Ok v ∧ rightmost pattern m c v.
Proof.
  intros [Hlen Htab] Hc. destruct (Htab c) as (v & Hv & Hr).
  exists v. split; [|done]. unfold read_table.
  rewrite schar_7bit by done. pose proof (uchar_range c).
  unfold UNIQUE_CHARS. cases_Z; try lia. simpl. by rewrite Hv.
Qed.

Lemma search_step_progress args s s' :
  search_step args s = Ok (Continue s') → s + 1 <= s'.
Proof.
  unfold search_step.
  destruct (compare_backward _ _ _ _ _) as [j|]; simpl; [|done].
  cases_Z; [done|].
  destruct (read_text _ _); simpl; [|done].
  destruct (read_table _ _) as [e|]; simpl; [|done].
  intros [= <-]. pose proof (max_1_ge (j - e)). lia.
Qed.

Lemma search_step_fuel args s : search_step args s ≠ Fault OutOfFuel.
Proof.
  unfold search_step.
  pose proof (compare_backward_fuel (Z.to_nat (patternLength args))
                (text args) (pattern args) s (patternLength args - 1)) as H.
  destruct (compare_backward _ _ _ _ _) as [j|f]; simpl.
  - cases_Z; [done|].
    unfold read_text. destruct (read _ _); simpl; [|done].
    unfold read_table. repeat case_match; done.
  - intros [= ->]. apply H; [lia|done].
Qed.

Lemma search_step_spec args s :
  1 <= patternLength args →
  table_for (pattern args) (patternLength args) (badCharShiftTable args) →
  (∀ i, 0 <= i < patternLength args → is_Some (read (pattern args) i)) →
  (∀ i, 0 <= i < patternLength args →
        ∃ c, read (text args) (s + i) = Some c ∧ uchar c < 128) →
  (search_step args s = Ok (Return s)
   ∧ matches (text args) (pattern args) (patternLength args) s)
  ∨ (∃ s', search_step args s = Ok (Continue s')
           ∧ s < s' <= s + patternLength args
           ∧ ∀ q, s <= q < s' →
                  ¬ matches (text args) (pattern args) (patternLength args) q).
Proof.
  set (m := patternLength args). intros Hm Htab Hpat Htext. unfold search_step.
  fold m.
  destruct (compare_backward_spec (Z.to_nat m) (text args) (pattern args) s (m - 1))
    as (j & -> & Hj1 & Hj2 & Hj3 & Hj4).
  { lia. }
  { intros i Hi. split; [apply Hpat; lia|].
    destruct (Htext i) as (c & -> & _); [lia|]. by eexists. }
  simpl. cases_Z.
  - left. split; [done|]. intros i Hi.
    destruct (Hpat i Hi) as [c Hc]. exists c. split; [done|].
    rewrite <- Hj3 by lia. done.
  - right. destruct (Htext j) as (c & Hc & H7); [lia|].
    rewrite (read_text_Ok _ _ _ Hc). simpl.
    destruct (read_table_7bit _ _ _ c Htab H7) as (v & -> & Hv & Hv1 & Hv2).
    simpl. eexists. split; [done|].
    pose proof (max_1_ge (j - v)). pose proof (max_1_le (j - v) m).
    split; [lia|]. intros q Hq Hmatch.
    destruct (decide (q = s)) as [->|Hqs].
    + destruct (Hmatch j) as (d & Hd1 & Hd2); [lia|].
      apply Hj4; [lia|]. congruence.
    + assert (max 1 (j - v) = j - v) as Hmax by (unfold max in *; revert Hq; cases_Z; lia).
      destruct (Hmatch (j - (q - s))) as (d & Hd1 & Hd2); [lia|].
      replace (q + (j - (q - s))) with (s + j) in Hd2 by lia.
      assert (d = c) as -> by congruence.
      apply (Hv2 (j - (q - s))); [lia|done].
Qed.

(** ** The outer loop *)

Lemma search_loop_fuel fuel args s :
  (Z.to_nat (textLength args - patternLength args - s + 1) ≤ fuel)%nat →
  search_loop fuel args s ≠ Fault OutOfFuel.
Proof.
  revert s. induction fuel as [|fuel IH]; intros s Hf; simpl; cases_Z;
    try done; try lia.
  pose proof (search_step_fuel args s) as Hstep.
  destruct (search_step args s) as [[r|s']|f] eqn:E; simpl; [done| |congruence].
  apply IH. apply search_step_progress in E. lia.
Qed.

Lemma search_loop_more_fuel fuel fuel' args s :
  (Z.to_nat (textLength args - patternLength args - s + 1) ≤ fuel)%nat →
  (Z.to_nat (textLength args - patternLength args - s + 1) ≤ fuel')%nat →
  search_loop fuel args s = search_loop fuel' args s.
Proof.
  revert fuel' s. induction fuel as [|fuel IH]; intros [|fuel'] s Hf Hf';
    simpl; cases_Z; try done; try lia.
  destruct (search_step args s) as [[r|s']|f] eqn:E; simpl; [done| |done].
  apply search_step_progress in E. apply IH; lia.
Qed.

Section SearchLoop.
Variable args : SearchArgs.
Local Abbreviation n := (textLength args).
Local Abbreviation m := (patternLength args).
Local Abbreviation occurs :=
  (matches (text args) (pattern args) (patternLength args)).

Hypothesis pattern_not_empty : 1 <= m.
Hypothesis table_built : table_for (pattern args) m (badCharShiftTable args).
Hypothesis pattern_readable : ∀ i, 0 <= i < m → is_Some (read (pattern args) i).

(** The text is readable, and below 128, up to [limit]. *)
Variable limit : Z.
Hypothesis text_7bit :
  ∀ i, 0 <= i < limit → ∃ c, read (text args) i = Some c ∧ uchar c < 128.

Lemma search_loop_finds fuel s q :
  (Z.to_nat (n - m - s + 1) ≤ fuel)%nat →
  0 <= s <= q → q <= n - m → q + m <= limit → occurs q →
  ∃ r, search_loop fuel args s = Ok r
       ∧ s <= r <= q ∧ occurs r ∧ ∀ r', s <= r' < r → ¬ occurs r'.
Proof.
  revert s. induction fuel as [|fuel IH]; intros s Hf Hs Hq Hlim Hocc;
    simpl; fold n m; cases_Z; try lia.
  destruct (search_step_spec args s) as [[-> Hm]|(s' & -> & Hs' & Hno)];
    try done.
  { intros i Hi. apply text_7bit. lia. }
  - simpl. exists s. split; [done|]. split; [lia|]. split; [done|]. intros; lia.
  - simpl. fold m in Hs', Hno.
    assert (s' <= q) as Hle.
    { destruct (Z.le_gt_cases s' q); [done|]. exfalso. apply (Hno q); [lia|done]. }
    destruct (IH s') as (r & -> & Hr & Hr1 & Hr2); try done; try lia.
    exists r. split; [done|]. split; [lia|]. split; [done|].
    intros r' Hr'. destruct (Z.lt_ge_cases r' s'); [apply Hno|apply Hr2]; lia.
Qed.

Lemma search_loop_decides fuel s :
  (Z.to_nat (n - m - s + 1) ≤ fuel)%nat →
  0 <= s → n <= limit →
  ∃ r, search_loop fuel args s = Ok r
       ∧ ((r = -1 ∧ ∀ q, s <= q <= n - m → ¬ occurs q)
          ∨ (s <= r <= n - m ∧ occurs r ∧ ∀ r', s <= r' < r → ¬ occurs r')).
Proof.
  revert s. induction fuel as [|fuel IH]; intros s Hf Hs Hlim;
    simpl; fold n m; cases_Z; try lia.
  - exists (-1). split; [done|]. left. split; [done|]. intros; lia.
  - destruct (search_step_spec args s) as [[-> Hm]|(s' & -> & Hs' & Hno)];
      try done.
    { intros i Hi. apply text_7bit. lia. }
    + simpl. exists s. split; [done|]. right. split; [lia|]. split; [done|].
      intros; lia.
    + simpl. fold m in Hs', Hno.
      destruct (IH s') as (r & -> & Hr); try done; try lia.
      exists r. split; [done|]. destruct Hr as [[-> Hr]|(Hr & Hr1 & Hr2)].
      * left. split; [done|]. intros q Hq.
        destruct (Z.lt_ge_cases q s'); [apply Hno|apply Hr]; lia.
      * right. split; [lia|]. split; [done|]. intros r' Hr'.
        destruct (Z.lt_ge_cases r' s'); [apply Hno|apply Hr2]; lia.
  - exists (-1). split; [done|]. left. split; [done|]. intros; lia.
Qed.
End SearchLoop.

(** ** search *)

Lemma search_Ok args r :
  search_loop (search_fuel args) args 0 = Ok r →
  search args = Ok (set_found_at args r).
Proof. unfold search. by intros ->. Qed.

Lemma search_inv args args' :
  search args = Ok args' →
  ∃ r, search_loop (search_fuel args) args 0 = Ok r ∧ args' = set_found_at args r.
Proof.
  unfold search. destruct (search_loop _ _ _) as [r|]; simpl; [|done].
  intros [= <-]. by exists r.
Qed.

(** ** Dispatch, run, join *)

Lemma dispatch_loop_all_started os args_of threadIndices :
  (∀ i, begin_thread os i = true) →
  dispatch_loop os args_of threadIndices
  = (BeginThread <$> threadIndices, Some (args_of <$> threadIndices)).
Proof.
  intros Hall. induction threadIndices as [|i l IH]; simpl; [done|].
  by rewrite Hall, IH.
Qed.

Lemma run_threads_Ok searchArgs :
  (∀ args, args ∈ searchArgs → ∃ r, search args = Ok (set_found_at args r)) →
  ∃ finished,
    run_threads searchArgs = Ok finished
    ∧ Forall2 (λ args args', search args = Ok args') searchArgs finished.
Proof.
  induction searchArgs as [|args l IH]; intros H; simpl.
  - by exists [].
  - destruct (H args) as [r Hr]; [by left|].
    destruct IH as (finished & -> & HF).
    { intros a Ha. apply H. by right. }
    rewrite Hr. simpl. eexists. split; [done|]. by constructor.
Qed.

Lemma run_threads_inv searchArgs finished :
  run_threads searchArgs = Ok finished →
  Forall2 (λ args args', search args = Ok args') searchArgs finished.
Proof.
  revert finished. induction searchArgs as [|args l IH]; intros finished; simpl.
  - intros [= <-]. constructor.
  - destruct (search args) as [a'|] eqn:E; simpl; [|done].
    destruct (run_threads l) as [l'|]; simpl; [|done].
    intros [= <-]. constructor; [done|]. by apply IH.
Qed.

Lemma first_found_Some j searchArgs k r :
  first_found j searchArgs = Some (k, r) →
  ∃ (i : nat) args,
    searchArgs !! i = Some args ∧ k = j + Z.of_nat i
    ∧ r = found_at args ∧ 0 <= r
    ∧ ∀ (i' : nat) args', (i' < i)%nat → searchArgs !! i' = Some args' →
                          found_at args' < 0.
Proof.
  revert j. induction searchArgs as [|a l IH]; intros j; simpl; [done|].
  cases_Z.
  - intros [= <- <-]. exists 0%nat, a. split; [done|]. split; [lia|].
    split; [done|]. split; [lia|]. intros; lia.
  - intros Hf. destruct (IH _ Hf) as (i & args & Hi & -> & -> & Hr & Hlt).
    exists (S i), args. split; [done|]. split; [lia|]. split; [done|].
    split; [done|]. intros [|i'] a' Hi' Ha'; simpl in Ha'.
    + by injection Ha' as <-.
    + apply (Hlt i'); [lia|done].
Qed.

Lemma first_found_None j searchArgs :
  first_found j searchArgs = None →
  ∀ (i : nat) args, searchArgs !! i = Some args → found_at args < 0.
Proof.
  revert j. induction searchArgs as [|a l IH]; intros j; simpl; [done|].
  cases_Z; [done|]. intros Hf [|i] args Hi; simpl in Hi.
  - by injection Hi as <-.
  - by apply (IH _ Hf i).
Qed.

Lemma first_found_all_negative j searchArgs :
  (∀ (i : nat) args, searchArgs !! i = Some args → found_at args < 0) →
  first_found j searchArgs = None.
Proof.
  revert j. induction searchArgs as [|a l IH]; intros j Hneg; simpl; [done|].
  pose proof (Hneg 0%nat a eq_refl). cases_Z; [lia|].
  apply IH. intros i args Hi. by apply (Hneg (S i)).
Qed.

Lemma join_events_cons j count :
  0 < count →
  join_events j count
  = WaitForSingleObject j :: CloseThread j :: join_events (j + 1) (count - 1).
Proof.
  intros H. unfold join_events. rewrite seqZ_cons by done. simpl.
  by replace (Z.succ j) with (j + 1) by lia.
Qed.

Lemma join_loop_found substring seconds j searchArgs k r :
  first_found j searchArgs = Some (k, r) →
  join_loop substring seconds j searchArgs
  = join_events j (k - j + 1) ++ [Printf (found_message substring seconds)].
Proof.
  revert j. induction searchArgs as [|a l IH]; intros j; simpl; [done|].
  destruct (found_at a >=? 0) eqn:E.
  - intros [= <- <-]. by replace (j - j + 1) with 1 by lia.
  - intros H. destruct (first_found_Some _ _ _ _ H) as (i & _ & _ & -> & _).
    rewrite (IH _ H), (join_events_cons j) by lia. simpl.
    by replace (j + 1 + Z.of_nat i - j + 1 - 1)
      with (j + 1 + Z.of_nat i - (j + 1) + 1) by lia.
Qed.

Lemma join_loop_not_found substring seconds j searchArgs :
  first_found j searchArgs = None →
  join_loop substring seconds j searchArgs
  = join_events j (Z.of_nat (length searchArgs))
      ++ [Printf (not_found_message substring seconds);
          UnmapViewOfFile; CloseMapping; CloseFile].
Proof.
  revert j. induction searchArgs as [|a l IH]; intros j; simpl; [done|].
  destruct (found_at a >=? 0) eqn:E; [done|].
  intros H. rewrite (IH _ H), (join_events_cons j) by lia. simpl.
  by replace (Z.of_nat (S (length l)) - 1) with (Z.of_nat (length l)) by lia.
Qed.

Lemma search_chunks_all_started os fileContent substring n m :
  (∀ i, begin_thread os i = true) →
  search_chunks os fileContent substring n m
  = (finished ← thread_results fileContent substring n m;
     Ok (CallGenerateTable :: (BeginThread <$> seqZ 0 (num_threads n m))
           ++ join_loop (show_c_string substring m) (elapsed os) 0 finished)).
Proof.
  intros Hall. unfold search_chunks, thread_results, num_threads.
  destruct (generateBadCharacterShiftTable _ _ _) as [table|]; simpl; [|done].
  destruct (chunking n m) as [[chunkSize extra] numThreads]. simpl.
  by rewrite dispatch_loop_all_started.
Qed.

(** ** Chunks *)

Lemma chunking_cases n m :
  0 <= n →
  0 <= Z.rem n MAX_THREADS < MAX_THREADS
  ∧ n = MAX_THREADS * (n ÷ MAX_THREADS) + Z.rem n MAX_THREADS
  ∧ ((n ÷ MAX_THREADS < m ∧ chunking n m = (n, Z.rem n MAX_THREADS, 1))
     ∨ (m <= n ÷ MAX_THREADS
        ∧ chunking n m = (n ÷ MAX_THREADS, Z.rem n MAX_THREADS, MAX_THREADS))).
Proof.
  intros Hn. split; [apply Z.rem_bound_pos; [done|by unfold MAX_THREADS]|].
  split; [apply Z.quot_rem'|]. unfold chunking. cases_Z; [left|right]; done.
Qed.

Lemma occurs_at_bound b p i :
  p ≠ [] → occurs_at b p i →
  0 <= i ∧ i + Z.of_nat (length p) <= Z.of_nat (length b).
Proof.
  intros Hp [Hi Heq]. split; [done|].
  assert (0 < length p)%nat by (destruct p; [done|simpl; lia]).
  apply (f_equal length) in Heq. rewrite length_take, length_drop in Heq. lia.
Qed.

Lemma occurs_at_lookup b p i :
  occurs_at b p i ↔
  0 <= i ∧ ∀ j : nat, (j < length p)%nat → b !! (Z.to_nat i + j)%nat = p !! j.
Proof.
  unfold occurs_at. split; intros [Hi H]; (split; [done|]).
  - intros j Hj. pose proof (f_equal (λ l, l !! j) H) as E. simpl in E.
    by rewrite lookup_take_lt, lookup_drop in E by done.
  - apply list_eq. intros j. destruct (decide (j < length p)%nat) as [Hj|Hj].
    + by rewrite lookup_take_lt, lookup_drop, H by done.
    + rewrite lookup_take_ge by lia. symmetry. apply lookup_ge_None. lia.
Qed.

Section Coordinator.
Variables b rest p junk : list byte.
Local Abbreviation view := (b ++ x00 :: rest).
Local Abbreviation substring := (p ++ x00 :: junk).
Local Abbreviation n := (Z.of_nat (length b)).
Local Abbreviation m := (Z.of_nat (length p)).

Hypothesis b_7bit : Forall (λ c, c ≠ x00 ∧ uchar c < 128) b.
Hypothesis p_no_nul : Forall (λ c, c ≠ x00) p.
Hypothesis lengths : 1 <= m <= n.

Lemma p_not_empty : p ≠ [].
Proof. intros ->. simpl in *. lia. Qed.

Lemma strlen_view : strlen view = Ok n.
Proof. apply strlen_app. eapply Forall_impl; [done|]. by intros c [??]. Qed.

Lemma strlen_substring : strlen substring = Ok m.
Proof. by apply strlen_app. Qed.

Lemma read_view i :
  0 <= i < n → ∃ c, read view i = Some c ∧ uchar c < 128.
Proof.
  intros Hi. destruct (lookup_lt_is_Some_2 b (Z.to_nat i)) as [c Hc]; [lia|].
  exists c. split.
  - unfold view. rewrite read_app_l by lia. apply read_Some. split; [lia|done].
  - by destruct (Forall_lookup_1 _ _ _ _ b_7bit Hc).
Qed.

Lemma read_view_b i : 0 <= i < n → read view i = b !! Z.to_nat i.
Proof.
  intros Hi. unfold view. rewrite read_app_l by lia. unfold read. cases_Z; [lia|done].
Qed.

Lemma read_substring j : 0 <= j < m → read substring j = p !! Z.to_nat j.
Proof.
  intros Hj. unfold substring. rewrite read_app_l by lia. unfold read.
  cases_Z; [lia|done].
Qed.

Lemma substring_readable j : 0 <= j < m → is_Some (read substring j).
Proof.
  intros Hj. rewrite read_substring by done. apply lookup_lt_is_Some. lia.
Qed.

Lemma matches_view_occurs i :
  0 <= i → i + m <= n → matches view substring m i ↔ occurs_at b p i.
Proof.
  intros Hi Him. rewrite occurs_at_lookup. split.
  - intros H. split; [done|]. intros j Hj.
    destruct (H (Z.of_nat j)) as (c & Hp & Hv); [lia|].
    rewrite read_substring in Hp by lia. rewrite read_view_b in Hv by lia.
    rewrite Nat2Z.id in Hp. rewrite Hp, <- Hv. f_equal. lia.
  - intros [_ H] j Hj.
    destruct (substring_readable j Hj) as [c Hc]. exists c. split; [done|].
    rewrite read_substring in Hc by done. rewrite read_view_b by lia.
    rewrite <- Hc, <- H by lia. f_equal. lia.
Qed.

Lemma table_built :
  ∃ table,
    generateBadCharacterShiftTable substring m
      (replicate (Z.to_nat UNIQUE_CHARS) 0) = Ok table
    ∧ table_for substring m table.
Proof.
  apply generateBadCharacterShiftTable_spec.
  - unfold substring. rewrite length_app. simpl. lia.
  - apply length_replicate.
Qed.

Lemma thread_search table k :
  table_for substring m table →
  num_threads n m = MAX_THREADS ∨ (∃ i0, occurs_at b p i0) →
  0 <= k < num_threads n m →
  let '(chunkSize, extra, numThreads) := chunking n m in
  ∃ r, search (thread_args view substring m table chunkSize extra numThreads k)
       = Ok (set_found_at
               (thread_args view substring m table chunkSize extra numThreads k) r)
       ∧ thread_verdict b p n m k r.
Proof.
  intros Htab Hmode Hk. unfold thread_verdict, within_chunk, chunk_start, chunk_length.
  unfold num_threads in *.
  destruct (chunking_cases n m) as (Hex & Hn & [[Hlt E]|[Hle E]]); [lia| |];
    rewrite E in *; simpl in Hk |- *; unfold MAX_THREADS in *.
  - (* one thread, whose textLength is n + extra *)
    destruct Hmode as [?|[i0 Hocc]]; [done|].
    assert (k = 0) as -> by lia. simpl.
    set (args := thread_args _ _ _ _ _ _ _ _).
    destruct (occurs_at_bound _ _ _ p_not_empty Hocc) as [Hi0 Hi0m]. fold n m in Hi0m.
    destruct (search_loop_finds args) with (limit := n) (fuel := search_fuel args)
      (s := 0) (q := i0) as (r & Hr & Hr0 & Hr1 & Hr2); simpl; try done; try lia.
    + intros i Hi. apply substring_readable. done.
    + intros i Hi. rewrite drop_0. by apply read_view.
    + unfold search_fuel. simpl. lia.
    + rewrite drop_0. by apply matches_view_occurs.
    + exists r. split; [by apply search_Ok|]. right. simpl in Hr1, Hr2.
      rewrite drop_0 in Hr1, Hr2. split; [lia|].
      split; [lia|]. split; [apply matches_view_occurs; [lia|lia|done]|].
      intros i Hi Hocci. destruct (Z.le_gt_cases r i); [lia|]. exfalso.
      destruct (occurs_at_bound _ _ _ p_not_empty Hocci) as [Hb1 Hb2].
      fold n m in Hb2.
      apply (Hr2 i); [lia|]. by apply matches_view_occurs.
  - (* sixteen threads *)
    set (cs := n ÷ 16) in *. set (ex := Z.rem n 16) in *.
    set (args := thread_args _ _ _ _ _ _ _ _).
    set (len := if k =? 15 then cs + ex else cs).
    assert (cs <= len ∧ k * cs + len <= n ∧ m <= len) as (Hlen1 & Hlen2 & Hlen3).
    { unfold len. cases_Z; nia. }
    assert (∀ q, 0 <= q → matches (drop (Z.to_nat (k * cs)) view) substring m q
                         ↔ matches view substring m (k * cs + q)) as Hshift.
    { intros q Hq. unfold matches. split; intros H j Hj;
        destruct (H j Hj) as (c & Hc1 & Hc2); exists c; (split; [done|]).
      - rewrite read_drop in Hc2 by lia. rewrite <- Hc2. f_equal. nia.
      - rewrite read_drop by lia. rewrite <- Hc2. f_equal. nia. }
    destruct (search_loop_decides args) with (limit := len) (fuel := search_fuel args)
      (s := 0) as (r & Hr & Hspec); simpl; try done; try lia.
    + intros i Hi. apply substring_readable. done.
    + intros i Hi. rewrite read_drop by lia.
      replace (Z.of_nat (Z.to_nat (k * cs)) + i) with (k * cs + i) by nia.
      apply read_view. nia.
    + unfold search_fuel. simpl. fold len. lia.
    + exists r. split; [by apply search_Ok|]. change (16 - 1) with 15. fold len.
      unfold args in Hspec. simpl in Hspec.
      change (16 - 1) with 15 in Hspec. fold len in Hspec.
      destruct Hspec as [[-> Hno]|(Hr0 & Hr1 & Hr2)].
      * left. split; [done|]. intros i (_ & Hi1 & Hi2) Hocci.
        apply (Hno (i - k * cs)); [lia|]. apply Hshift; [lia|].
        replace (k * cs + (i - k * cs)) with i by lia.
        apply matches_view_occurs; [nia|nia|done].
      * right. split; [lia|]. split; [lia|].
        split; [apply matches_view_occurs; [nia|nia|by apply Hshift; [lia|]]|].
        intros i (_ & Hi1 & Hi2) Hocci.
        destruct (Z.le_gt_cases (k * cs + r) i); [done|]. exfalso.
        apply (Hr2 (i - k * cs)); [lia|]. apply Hshift; [lia|].
        replace (k * cs + (i - k * cs)) with i by lia.
        apply matches_view_occurs; [nia|nia|done].
Qed.

Lemma thread_results_spec :
  num_threads n m = MAX_THREADS ∨ (∃ i0, occurs_at b p i0) →
  ∃ finished,
    thread_results view substring n m = Ok finished
    ∧ length finished = Z.to_nat (num_threads n m)
    ∧ ∀ k, 0 <= k < num_threads n m →
           ∃ args, finished !! Z.to_nat k = Some args
                   ∧ thread_verdict b p n m k (found_at args).
Proof.
  intros Hmode. destruct table_built as (table & Htable & Htab).
  unfold thread_results. rewrite Htable. simpl.
  pose proof (λ k, thread_search table k Htab Hmode) as Hthread.
  unfold num_threads in *.
  destruct (chunking n m) as [[chunkSize extra] numThreads]. simpl in *.
  set (args_of := thread_args view substring m table chunkSize extra numThreads) in *.
  destruct (run_threads_Ok (args_of <$> seqZ 0 numThreads))
    as (finished & -> & HF).
  { intros args (k & -> & Hk)%list_elem_of_fmap. apply elem_of_seqZ in Hk.
    destruct (Hthread k) as (r & Hr & _); [lia|]. by exists r. }
  exists finished. split; [done|]. split.
  { apply Forall2_length in HF. rewrite <- HF, length_fmap, length_seqZ. done. }
  intros k Hk.
  assert ((args_of <$> seqZ 0 numThreads) !! Z.to_nat k = Some (args_of k)) as Hlk.
  { rewrite list_lookup_fmap, lookup_seqZ_lt by lia. simpl. f_equal. f_equal. lia. }
  destruct (Forall2_lookup_l _ _ _ _ _ HF Hlk) as (args' & Hargs' & Hsearch).
  destruct (Hthread k Hk) as (r & Hr & Hverdict).
  exists args'. split; [done|]. rewrite Hr in Hsearch. by injection Hsearch as <-.
Qed.
End Coordinator.

(** ** The verdict of the coordinator *)

Lemma chunks_ordered n m k k' :
  0 <= n → 0 <= k < k' → k' < num_threads n m →
  chunk_start n m k + chunk_length n m k <= chunk_start n m k'.
Proof.
  intros Hn Hk Hk'. unfold chunk_start, chunk_length, num_threads in *.
  destruct (chunking_cases n m Hn) as (Hex & Hdiv & [[_ E]|[_ E]]);
    rewrite E in *; simpl in *; unfold MAX_THREADS in *; [lia|].
  assert (0 <= n ÷ 16) by (apply Z.quot_pos; lia).
  cases_Z; [lia|nia].
Qed.

Lemma thread_verdict_negative b p n m k r :
  thread_verdict b p n m k r → r < 0 →
  ∀ i, within_chunk n m k i → ¬ occurs_at b p i.
Proof. intros [[_ H]|[H _]] Hr; [done|lia]. Qed.

Lemma thread_verdict_found b p n m k r :
  thread_verdict b p n m k r → 0 <= r →
  within_chunk n m k (chunk_start n m k + r)
  ∧ occurs_at b p (chunk_start n m k + r)
  ∧ ∀ i, within_chunk n m k i → occurs_at b p i → chunk_start n m k + r <= i.
Proof. intros [[-> _]|[_ H]] Hr; [lia|done]. Qed.

Section Verdict.
Variables (b p : list byte) (n m : Z) (finished : list SearchArgs).
Hypothesis lengths : 1 <= m <= n.
Hypothesis all_finished : length finished = Z.to_nat (num_threads n m).
Hypothesis verdicts :
  ∀ k, 0 <= k < num_threads n m →
       ∃ args, finished !! Z.to_nat k = Some args
               ∧ thread_verdict b p n m k (found_at args).

Lemma first_found_leftmost k0 i0 :
  within_chunk n m k0 i0 → occurs_at b p i0 →
  ∃ k r,
    first_found 0 finished = Some (k, r)
    ∧ within_chunk n m k (chunk_start n m k + r)
    ∧ occurs_at b p (chunk_start n m k + r)
    ∧ ∀ k' i', within_chunk n m k' i' → occurs_at b p i' →
               chunk_start n m k + r <= i'.
Proof.
  intros Hin Hocc. destruct (first_found 0 finished) as [[k r]|] eqn:E.
  - exists k, r. split; [done|].
    destruct (first_found_Some _ _ _ _ E) as (i & args & Hi & -> & -> & Hr & Hlt).
    assert (0 <= 0 + Z.of_nat i < num_threads n m) as Hk.
    { apply lookup_lt_Some in Hi. lia. }
    destruct (verdicts _ Hk) as (args' & Hargs' & Hv).
    replace (Z.to_nat (0 + Z.of_nat i)) with i in Hargs' by lia.
    assert (args' = args) as -> by congruence.
    destruct (thread_verdict_found _ _ _ _ _ _ Hv Hr) as (Hw & Ho & Hleast).
    split; [done|]. split; [done|]. intros k' i' Hin' Hocc'.
    destruct (Z.lt_trichotomy k' (0 + Z.of_nat i)) as [Hlt'|[->|Hgt]].
    + exfalso. destruct Hin' as (Hk' & Hin').
      destruct (verdicts _ Hk') as (a' & Ha' & Hv').
      eapply (thread_verdict_negative _ _ _ _ _ _ Hv'); [|split; done|done].
      apply (Hlt (Z.to_nat k')); [lia|done].
    + by apply Hleast.
    + destruct Hin' as (Hk' & Hs' & _). destruct Hw as (_ & _ & Hw).
      pose proof (chunks_ordered n m (0 + Z.of_nat i) k'). lia.
  - exfalso. destruct Hin as (Hk0 & Hin).
    destruct (verdicts _ Hk0) as (args & Hargs & Hv).
    eapply (thread_verdict_negative _ _ _ _ _ _ Hv); [|split; done|done].
    by eapply first_found_None.
Qed.

Lemma first_found_nowhere :
  (∀ k i, within_chunk n m k i → ¬ occurs_at b p i) →
  first_found 0 finished = None.
Proof.
  intros Hno. apply first_found_all_negative. intros i args Hi.
  assert (0 <= Z.of_nat i < num_threads n m) as Hk.
  { apply lookup_lt_Some in Hi. lia. }
  destruct (verdicts _ Hk) as (args' & Hargs' & Hv).
  rewrite Nat2Z.id in Hargs'. assert (args' = args) as -> by congruence.
  destruct (Z.lt_ge_cases (found_at args) 0) as [|Hr]; [done|]. exfalso.
  destruct (thread_verdict_found _ _ _ _ _ _ Hv Hr) as (Hw & Ho & _).
  by apply (Hno _ _ Hw).
Qed.
End Verdict.

(** ** search_in_file, when the file is mapped and the lengths are valid *)

Lemma search_in_file_valid os file_name fileContent substring n m :
  create_file os = None → create_file_mapping os = None →
  map_view_of_file os = inr fileContent →
  strlen fileContent = Ok n → strlen substring = Ok m → 1 <= m <= n →
  search_in_file os file_name substring
  = search_chunks os fileContent substring n m.
Proof.
  intros H1 H2 H3 Hn Hm Hlen. unfold search_in_file.
  rewrite H1, H2, H3, Hn, Hm. simpl.
  cases_Z; try lia. done.
Qed.

Lemma show_c_string_app p junk :
  show_c_string (p ++ x00 :: junk) (Z.of_nat (length p)) = string_of_list_byte p.
Proof.
  unfold show_c_string. by rewrite Nat2Z.id, take_app_length.
Qed.

Lemma generateBadCharacterShiftTable_init pattern m table0 table0' :
  length table0 = Z.to_nat UNIQUE_CHARS →
  length table0' = Z.to_nat UNIQUE_CHARS →
  generateBadCharacterShiftTable pattern m table0
  = generateBadCharacterShiftTable pattern m table0'.
Proof.
  intros H H'. unfold generateBadCharacterShiftTable.
  change (seqZ 0 UNIQUE_CHARS) with (seqZ 0 (Z.of_nat (Z.to_nat UNIQUE_CHARS))).
  rewrite !clear_loop by lia. by rewrite !drop_ge by lia.
Qed.

Lemma search_step_Continue args s s' :
  search_step args s = Ok (Continue s') →
  ∃ j c entry,
    compare_backward (Z.to_nat (patternLength args)) (text args) (pattern args)
      s (patternLength args - 1) = Ok j
    ∧ 0 <= j
    ∧ read_text (text args) (s + j) = Ok c
    ∧ read_table (badCharShiftTable args) (schar c) = Ok entry
    ∧ s' = s + max 1 (j - entry).
Proof.
  unfold search_step.
  destruct (compare_backward _ _ _ _ _) as [j|] eqn:Ej; simpl; [|done].
  cases_Z; [done|].
  destruct (read_text _ _) as [c|] eqn:Ec; simpl; [|done].
  destruct (read_table _ _) as [entry|] eqn:Ee; simpl; [|done].
  intros [= <-]. exists j, c, entry. repeat split; try done; lia.
Qed.

Lemma thread_results_length fileContent substring n m finished :
  thread_results fileContent substring n m = Ok finished →
  length finished = Z.to_nat (num_threads n m).
Proof.
  unfold thread_results, num_threads.
  destruct (generateBadCharacterShiftTable _ _ _) as [table|]; simpl; [|done].
  destruct (chunking n m) as [[chunkSize extra] numThreads]. simpl.
  intros HF%run_threads_inv%Forall2_length.
  by rewrite <- HF, length_fmap, length_seqZ.
Qed.

Lemma compare_backward_le fuel text pattern s idx j :
  compare_backward fuel text pattern s idx = Ok j → j <= idx.
Proof.
  revert idx. induction fuel as [|fuel IH]; intros idx; simpl; cases_Z;
    try done; try (intros [= <-]; lia).
  destruct (read_pattern _ _); simpl; [|done].
  destruct (read_text _ _); simpl; [|done].
  case_match; [|intros [= <-]; lia].
  intros Hj%IH. lia.
Qed.

(** With the table of the pattern, no iteration moves the shift by more
    than the pattern length: within the loop the shift stays at most
    [textLength], so the [int] arithmetic of line 116 cannot overflow. *)
Lemma search_step_shift_bounded args s s' :
  1 <= patternLength args →
  table_for (pattern args) (patternLength args) (badCharShiftTable args) →
  search_step args s = Ok (Continue s') →
  s < s' <= s + patternLength args.
Proof.
  intros Hm [Hlen Htab] Hstep.
  destruct (search_step_Continue _ _ _ Hstep) as (j & c & entry & Hj & Hj0 & _ & He & ->).
  apply compare_backward_le in Hj.
  pose proof (max_1_ge (j - entry)).
  assert (-1 <= entry) as Hentry.
  { revert He. unfold read_table. pose proof (uchar_range c).
    destruct (Z.leb_spec 0 (schar c)) as [Hc|]; simpl; [|done].
    destruct (_ <? _); [|done].
    assert (schar c = uchar c) as ->.
    { revert Hc. unfold schar. cases_Z; lia. }
    destruct (Htab c) as (v & -> & Hv & _). intros [= <-]. lia. }
  pose proof (max_1_le (j - entry) (patternLength args)). lia.
Qed.

(** ** When a thread cannot be created *)

Lemma dispatch_loop_failure os args_of (count : nat) (a f T : Z) :
  f - a = Z.of_nat count → 0 <= a → f < T →
  (∀ i, a <= i < f → begin_thread os i = true) →
  begin_thread os f = false →
  dispatch_loop os args_of (seqZ a (T - a))
  = ((BeginThread <$> seqZ a (f - a))
       ++ Printf thread_failed_message
       :: (CloseThread <$> seqZ 0 f)
       ++ [UnmapViewOfFile; CloseMapping; CloseFile],
     None).
Proof.
  revert a. induction count as [|count IH]; intros a Hc Ha HT Hok Hfail.
  - assert (a = f) as -> by lia. rewrite seqZ_cons by lia. simpl.
    rewrite Hfail. by rewrite Z.sub_diag.
  - rewrite (seqZ_cons a (T - a)) by lia. simpl. rewrite Hok by lia.
    replace (Z.pred (T - a)) with (T - Z.succ a) by lia.
    rewrite (IH (Z.succ a)); [|lia|lia|lia|intros; apply Hok; lia|done].
    simpl. rewrite (seqZ_cons a (f - a)) by lia. simpl.
    by replace (Z.pred (f - a)) with (f - Z.succ a) by lia.
Qed.

Lemma started_threads_failure os (count : nat) (a f T : Z) :
  f - a = Z.of_nat count → 0 <= a → f < T →
  (∀ i, a <= i < f → begin_thread os i = true) →
  begin_thread os f = false →
  started_threads os (seqZ a (T - a)) = seqZ a (f - a).
Proof.
  revert a. induction count as [|count IH]; intros a Hc Ha HT Hok Hfail.
  - assert (a = f) as -> by lia. rewrite seqZ_cons by lia. simpl.
    rewrite Hfail. by rewrite Z.sub_diag.
  - rewrite (seqZ_cons a (T - a)) by lia. simpl. rewrite Hok by lia.
    replace (Z.pred (T - a)) with (T - Z.succ a) by lia.
    rewrite (IH (Z.succ a)); [|lia|lia|lia|intros; apply Hok; lia|done].
    rewrite (seqZ_cons a (f - a)) by lia.
    by replace (Z.pred (f - a)) with (f - Z.succ a) by lia.
Qed.

Lemma started_threads_ext os os' threadIndices :
  (∀ i, begin_thread os i = begin_thread os' i) →
  started_threads os threadIndices = started_threads os' threadIndices.
Proof.
  intros Hbt. induction threadIndices as [|i l IH]; simpl; [done|].
  rewrite <- Hbt. destruct (begin_thread os i); [by rewrite IH|done].
Qed.

Lemma started_threads_elem os threadIndices i :
  i ∈ started_threads os threadIndices → i ∈ threadIndices.
Proof.
  induction threadIndices as [|j l IH]; simpl; [done|].
  destruct (begin_thread os j); [|by intros ?%elem_of_nil].
  intros [->|Hi]%elem_of_cons; [by left|]. right. by apply IH.
Qed.

Lemma strlen_le s n : strlen s = Ok n → 0 <= n < Z.of_nat (length s).
Proof.
  intros (Hn & _ & Hnul)%strlen_Ok. apply lookup_lt_Some in Hnul. lia.
Qed.

(** ** What a scan reads *)

Lemma compare_backward_ext fuel text text' pattern s idx :
  (∀ i, 0 <= i <= idx → read text (s + i) = read text' (s + i)) →
  compare_backward fuel text pattern s idx
  = compare_backward fuel text' pattern s idx.
Proof.
  revert idx. induction fuel as [|fuel IH]; intros idx Hagree; simpl; [done|].
  cases_Z; [|done].
  destruct (read_pattern pattern idx) as [c|]; simpl; [|done].
  unfold read_text. rewrite <- Hagree by lia.
  destruct (read text (s + idx)); simpl; [|done].
  case_match; [|done]. apply IH. intros i Hi. apply Hagree. lia.
Qed.

Lemma search_step_ext args args' s :
  textLength args' = textLength args → pattern args' = pattern args →
  patternLength args' = patternLength args →
  badCharShiftTable args' = badCharShiftTable args →
  (∀ i, 0 <= i < patternLength args →
        read (text args) (s + i) = read (text args') (s + i)) →
  search_step args s = search_step args' s.
Proof.
  intros _ Hp Hm Ht Hagree. unfold search_step. rewrite Hp, Hm, Ht.
  rewrite (compare_backward_ext _ (text args) (text args')).
  2:{ intros i Hi. apply Hagree. lia. }
  destruct (compare_backward _ _ _ _ _) as [j|] eqn:Ej; simpl; [|done].
  cases_Z; [done|]. apply compare_backward_le in Ej.
  unfold read_text. by rewrite Hagree by lia.
Qed.

Lemma search_loop_ext fuel args args' s :
  textLength args' = textLength args → pattern args' = pattern args →
  patternLength args' = patternLength args →
  badCharShiftTable args' = badCharShiftTable args →
  (∀ i, 0 <= i < textLength args → read (text args) i = read (text args') i) →
  0 <= s →
  search_loop fuel args s = search_loop fuel args' s.
Proof.
  intros Hn Hp Hm Ht Hagree. revert s.
  induction fuel as [|fuel IH]; intros s Hs; simpl; rewrite Hn, Hm; [done|].
  cases_Z; [|done].
  rewrite (search_step_ext args args' s) by (try done; intros; apply Hagree; lia).
  destruct (search_step args' s) as [[r|s']|] eqn:E; simpl; try done.
  apply IH. rewrite <- (search_step_ext args args' s) in E
    by (try done; intros; apply Hagree; lia).
  apply search_step_progress in E. lia.
Qed.

Lemma run_threads_ext (l l' : list SearchArgs) :
  Forall2 (λ args args',
             search_loop (search_fuel args) args 0
             = search_loop (search_fuel args') args' 0) l l' →
  match run_threads l, run_threads l' with
  | Ok finished, Ok finished' => found_at <$> finished = found_at <$> finished'
  | Fault f, Fault f' => f = f'
  | _, _ => False
  end.
Proof.
  induction 1 as [|a a' l l' Ha Hl IH]; simpl; [done|].
  unfold search. rewrite Ha.
  destruct (search_loop (search_fuel a') a' 0) as [r|f0]; simpl; [|done].
  destruct (run_threads l) as [fin|f1], (run_threads l') as [fin'|f1'];
    simpl in *; try done.
  f_equal. exact IH.
Qed.

Lemma join_loop_ext substring seconds j (l l' : list SearchArgs) :
  found_at <$> l = found_at <$> l' →
  join_loop substring seconds j l = join_loop substring seconds j l'.
Proof.
  revert j l'. induction l as [|a l IH]; intros j [|a' l']; simpl; try done.
  intros [= Ha Hl]. rewrite Ha. case_match; [done|]. do 2 f_equal. by apply IH.
Qed.

Lemma dispatch_loop_ext os os' args_of args_of' (R : SearchArgs → SearchArgs → Prop)
    (threadIndices : list Z) :
  (∀ i, begin_thread os i = begin_thread os' i) →
  (∀ i, i ∈ threadIndices → R (args_of i) (args_of' i)) →
  (dispatch_loop os args_of threadIndices).1
  = (dispatch_loop os' args_of' threadIndices).1
  ∧ option_Forall2 (Forall2 R)
      (dispatch_loop os args_of threadIndices).2
      (dispatch_loop os' args_of' threadIndices).2.
Proof.
  intros Hbt. induction threadIndices as [|i l IH]; intros HR; simpl.
  - split; [done|]. repeat constructor.
  - rewrite <- Hbt. destruct (begin_thread os i); simpl.
    + destruct IH as [IH1 IH2]; [intros; apply HR; by right|].
      destruct (dispatch_loop os args_of l) as [events started],
               (dispatch_loop os' args_of' l) as [events' started'].
      simpl in *. subst events'. split; [done|].
      destruct IH2; simpl; constructor. constructor; [|done].
      apply HR. by left.
    + split; [done|]. constructor.
Qed.

(** ** Progress with any table of entries from -1 on *)

Lemma read_table_entry table c :
  length table = Z.to_nat UNIQUE_CHARS → uchar c < 128 →
  ∃ entry, read_table table (schar c) = Ok entry
           ∧ table !! Z.to_nat (uchar c) = Some entry.
Proof.
  intros Hlen Hc. pose proof (uchar_range c). unfold UNIQUE_CHARS in *.
  destruct (lookup_lt_is_Some_2 table (Z.to_nat (uchar c))) as [entry He];
    [lia|].
  exists entry. split; [|done]. unfold read_table.
  rewrite schar_7bit by done. unfold UNIQUE_CHARS. cases_Z; try lia.
  simpl. by rewrite He.
Qed.

Lemma search_step_advances args s :
  1 <= patternLength args →
  length (badCharShiftTable args) = Z.to_nat UNIQUE_CHARS →
  Forall (λ entry, -1 <= entry <= INT_MAX) (badCharShiftTable args) →
  (∀ i, 0 <= i < patternLength args → is_Some (read (pattern args) i)) →
  (∀ i, 0 <= i < textLength args →
        ∃ c, read (text args) i = Some c ∧ uchar c < 128) →
  0 <= s <= textLength args - patternLength args →
  search_step args s = Ok (Return s)
  ∨ ∃ s', search_step args s = Ok (Continue s')
          ∧ s < s' <= s + patternLength args.
Proof.
  intros Hm Hlen Hentries Hpat Htext Hs. unfold search_step.
  destruct (compare_backward_spec (Z.to_nat (patternLength args)) (text args)
              (pattern args) s (patternLength args - 1))
    as (j & -> & Hj1 & Hj2 & _).
  { lia. }
  { intros i Hi. split; [apply Hpat; lia|].
    destruct (Htext (s + i)) as (c & -> & _); [lia|done]. }
  simpl. cases_Z; [by left|]. right.
  destruct (Htext (s + j)) as (c & Hc & Hc7); [lia|].
  rewrite (read_text_Ok _ _ _ Hc). simpl.
  destruct (read_table_entry _ c Hlen Hc7) as (entry & -> & He). simpl.
  eexists. split; [done|].
  pose proof (Forall_lookup_1 _ _ _ _ Hentries He) as Hentry. simpl in Hentry.
  pose proof (max_1_ge (j - entry)).
  pose proof (max_1_le (j - entry) (patternLength args)). lia.
Qed.

Lemma search_loop_returns args fuel s :
  1 <= patternLength args →
  length (badCharShiftTable args) = Z.to_nat UNIQUE_CHARS →
  Forall (λ entry, -1 <= entry <= INT_MAX) (badCharShiftTable args) →
  (∀ i, 0 <= i < patternLength args → is_Some (read (pattern args) i)) →
  (∀ i, 0 <= i < textLength args →
        ∃ c, read (text args) i = Some c ∧ uchar c < 128) →
  (Z.to_nat (textLength args - patternLength args - s + 1) ≤ fuel)%nat →
  0 <= s →
  ∃ r, search_loop fuel args s = Ok r
       ∧ (r = -1 ∨ s <= r <= textLength args - patternLength args).
Proof.
  intros Hm Hlen Hentries Hpat Htext. revert s.
  induction fuel as [|fuel IH]; intros s Hfuel Hs; simpl; cases_Z; try lia;
    try (exists (-1); split; [done|by left]).
  destruct (search_step_advances args s) as [->|(s' & -> & Hs')]; try done;
    simpl.
  - exists s. split; [done|]. right. lia.
  - destruct (IH s') as (r & -> & Hr); [lia|lia|].
    exists r. split; [done|]. lia.
Qed.

(** * The claims *)




(** C2. For every pattern [p], whatever the caller's array held before,
    the builder returns a table of 256 entries in which the entry of every
    byte value [c] is the greatest index [i] with [p[i] = c], or [-1] when
    [c] does not occur in [p]. The table is a function of the pattern
    alone: another initial content of the array gives the same table. *)
Theorem generateBadCharacterShiftTable_rightmost (p : list byte) (table0 : list Z) :
  length table0 = Z.to_nat UNIQUE_CHARS →
  ∃ table,
    generateBadCharacterShiftTable p (Z.of_nat (length p)) table0 = Ok table
    ∧ length table = Z.to_nat UNIQUE_CHARS
    ∧ (∀ c : byte,
         ∃ v, table !! Z.to_nat (uchar c) = Some v
              ∧ ((v = -1 ∧ c ∉ p)
                 ∨ (0 <= v ∧ p !! Z.to_nat v = Some c
                    ∧ ∀ i : nat, p !! i = Some c → Z.of_nat i <= v)))
    ∧ (∀ table0', length table0' = Z.to_nat UNIQUE_CHARS →
         generateBadCharacterShiftTable p (Z.of_nat (length p)) table0'
         = Ok table).
Proof.
  intros Hlen.
  destruct (generateBadCharacterShiftTable_spec p (Z.of_nat (length p)) table0)
    as (table & Htable & Hlen' & Htab); [lia|done|].
  exists table. split; [done|]. split; [done|]. split.
  - intros c. destruct (Htab c) as (v & Hv & Hr & Hr1 & Hr2). exists v.
    split; [done|]. destruct (decide (v = -1)) as [->|Hne].
    + left. split; [done|]. intros (i & Hi)%list_elem_of_lookup.
      apply (Hr2 (Z.of_nat i)).
      * apply lookup_lt_Some in Hi. lia.
      * apply read_Some. rewrite Nat2Z.id. split; [lia|done].
    + right. split; [lia|]. split.
      * apply read_Some in Hr1; [|lia]. by destruct Hr1.
      * intros i Hi. destruct (Z.le_gt_cases (Z.of_nat i) v); [done|]. exfalso.
        apply (Hr2 (Z.of_nat i)).
        -- apply lookup_lt_Some in Hi. lia.
        -- apply read_Some. rewrite Nat2Z.id. split; [lia|done].
  - intros table0' Hlen0. by rewrite <- Htable; apply generateBadCharacterShiftTable_init.
Qed.

(** The table of "abca", built over an array that held sevens. *)
Lemma generateBadCharacterShiftTable_rightmost_witness :
  ∃ table,
    generateBadCharacterShiftTable (list_byte_of_string "abca") 4
      (replicate 256 7) = Ok table
    ∧ length table = Z.to_nat UNIQUE_CHARS
    ∧ (∀ c : byte,
         ∃ v, table !! Z.to_nat (uchar c) = Some v
              ∧ ((v = -1 ∧ c ∉ list_byte_of_string "abca")
                 ∨ (0 <= v ∧ list_byte_of_string "abca" !! Z.to_nat v = Some c
                    ∧ ∀ i : nat, list_byte_of_string "abca" !! i = Some c
                                 → Z.of_nat i <= v)))
    ∧ (∀ table0', length table0' = Z.to_nat UNIQUE_CHARS →
         generateBadCharacterShiftTable (list_byte_of_string "abca") 4 table0'
         = Ok table).
Proof.
  apply (generateBadCharacterShiftTable_rightmost
           (list_byte_of_string "abca") (replicate 256 7)).
  reflexivity.
Defined.



(** C4, at a text of ten bytes and a pattern of three. The chunk size
    [10 / 16 = 0] is below the pattern length, so one thread is used and
    [chunkSize] becomes 10; [extra] keeps the value [10 % 16 = 10], and the
    one thread, being the last, is given [textLength = chunkSize + extra =
    20]: the chunk is not [0, 10). The scan then runs past the text: with
    nothing mapped behind its NUL the read of [text[11]] is outside the
    view, and with zero bytes behind it the scan ends. *)
Example chunking_single_thread_keeps_extra :
  chunking 10 3 = (10, 10, 1)
  ∧ chunk_start 10 3 0 = 0
  ∧ chunk_length 10 3 0 = 20
  ∧ textLength
      (thread_args (list_byte_of_string "abcdefghij" ++ [x00])
                   (list_byte_of_string "xyz" ++ [x00]) 3 [] 10 10 1 0) = 20
  ∧ search_in_file
      (os_mapping (list_byte_of_string "abcdefghij" ++ [x00]) "0.000000")
      "textfile.txt" (list_byte_of_string "xyz" ++ [x00])
    = Fault (BadTextIndex 11)
  ∧ search_in_file
      (os_mapping (list_byte_of_string "abcdefghij" ++ replicate 11 x00)
                  "0.000000")
      "textfile.txt" (list_byte_of_string "xyz" ++ [x00])
    = Ok [CallGenerateTable; BeginThread 0;
          WaitForSingleObject 0; CloseThread 0;
          Printf (not_found_message "xyz" "0.000000");
          UnmapViewOfFile; CloseMapping; CloseFile].
Proof. repeat split; vm_compute; reflexivity. Qed.

(** C5. Once the file is mapped, [search_in_file] tests the two lengths,
    which are taken to fit the [int]s of lines 227 and 228, before anything
    else. An empty text prints "File is empty", else an
    empty pattern prints "Pattern is empty", else a pattern longer than the
    text prints that the pattern will not be found. In each of the three
    cases that one [printf] is all the function does before it returns: the
    table is not built and no thread is started, so [search] compares no
    byte. *)
Theorem search_in_file_validates (os : OS) (file_name : string)
    (fileContent substring : list byte) (textLength patternLength : Z) :
  create_file os = None →
  create_file_mapping os = None →
  map_view_of_file os = inr fileContent →
  strlen fileContent = Ok textLength →
  strlen substring = Ok patternLength →
  textLength <= INT_MAX →
  patternLength <= INT_MAX →
  textLength = 0 ∨ patternLength = 0 ∨ patternLength > textLength →
  ∃ message,
    search_in_file os file_name substring = Ok [Printf message]
    ∧ existsb is_scan_event [Printf message] = false
    ∧ message =
        if textLength =? 0 then file_empty_message file_name
        else if patternLength =? 0 then pattern_empty_message
        else pattern_too_long_message.
Proof.
  intros H1 H2 H3 Hn Hm _ _ Hinvalid. unfold search_in_file.
  rewrite H1, H2, H3, Hn, Hm. simpl.
  cases_Z; try lia; by eexists.
Qed.

(** A text of ten bytes and a pattern of fifteen; an empty text; an empty
    pattern. *)
Lemma search_in_file_validates_witness :
  (∃ message,
     search_in_file
       (os_mapping (list_byte_of_string "0123456789" ++ [x00]) "0.000000")
       "textfile.txt" (list_byte_of_string "ThisIsTheEnd123" ++ [x00])
     = Ok [Printf message]
     ∧ existsb is_scan_event [Printf message] = false
     ∧ message = pattern_too_long_message)
  ∧ (∃ message,
       search_in_file (os_mapping [x00] "0.000000")
         "textfile.txt" (list_byte_of_string "ThisIsTheEnd" ++ [x00])
       = Ok [Printf message]
       ∧ existsb is_scan_event [Printf message] = false
       ∧ message = file_empty_message "textfile.txt")
  ∧ (∃ message,
       search_in_file
         (os_mapping (list_byte_of_string "0123456789" ++ [x00]) "0.000000")
         "textfile.txt" [x00]
       = Ok [Printf message]
       ∧ existsb is_scan_event [Printf message] = false
       ∧ message = pattern_empty_message).
Proof.
  split; [|split].
  - apply (search_in_file_validates
             (os_mapping (list_byte_of_string "0123456789" ++ [x00]) "0.000000")
             "textfile.txt" (list_byte_of_string "0123456789" ++ [x00])
             (list_byte_of_string "ThisIsTheEnd123" ++ [x00])
             10 15); try reflexivity; try (by vm_compute).
    right. right. lia.
  - apply (search_in_file_validates (os_mapping [x00] "0.000000")
             "textfile.txt" [x00]
             (list_byte_of_string "ThisIsTheEnd" ++ [x00])
             0 12); try reflexivity; try (by vm_compute).
    left. reflexivity.
  - apply (search_in_file_validates
             (os_mapping (list_byte_of_string "0123456789" ++ [x00]) "0.000000")
             "textfile.txt" (list_byte_of_string "0123456789" ++ [x00])
             [x00] 10 0); try reflexivity; try (by vm_compute).
    right. left. reflexivity.
Defined.




(** C7, at a chunk that holds a byte above 127. The text is the one byte
    0xE9 and the pattern is "a". The builder indexes its table with
    [(unsigned char)pattern[patternIndex]], here 97. [search] indexes the
    table with the plain [char] [text[patternShift + patternIndex]], here
    -23: the lookup [badCharShiftTable[-23]] is outside the 256 entries. *)
Example search_indexes_table_with_signed_char :
  uchar xe9 = 233
  ∧ schar xe9 = -23
  ∧ ∃ table,
      generateBadCharacterShiftTable [x61] 1 (replicate 256 0) = Ok table
      ∧ table !! Z.to_nat (uchar x61) = Some 0
      ∧ search {| text := [xe9]; textLength := 1;
                  pattern := [x61]; patternLength := 1;
                  badCharShiftTable := table; found_at := -1 |}
        = Fault (BadTableIndex (-23)).
Proof.
  split; [reflexivity|]. split; [reflexivity|].
  eexists. split; [vm_compute; reflexivity|]. split; reflexivity.
Qed.




(** C9, on four runs. When the pattern is found, the function returns
    after the [printf] of line 326: the view is not unmapped and neither
    handle is closed. When the text is empty it returns after the [printf]
    of line 233, again with nothing released. When the third thread cannot
    be created, the handles of the two started threads are closed with no
    wait for them, then the view and the two handles are released. The
    fourth run, which does not find the pattern, shows the release that
    the first two miss. *)
Example search_in_file_returns_without_release :
  search_in_file (os_mapping (list_byte_of_string "ab" ++ [x00]) "0.000000")
    "textfile.txt" (list_byte_of_string "ab" ++ [x00])
  = Ok [CallGenerateTable; BeginThread 0;
        WaitForSingleObject 0; CloseThread 0;
        Printf (found_message "ab" "0.000000")]
  ∧ search_in_file (os_mapping [x00] "0.000000")
      "textfile.txt" (list_byte_of_string "ab" ++ [x00])
    = Ok [Printf (file_empty_message "textfile.txt")]
  ∧ search_in_file
      {| create_file := None; create_file_mapping := None;
         map_view_of_file :=
           inr (list_byte_of_string "0123456789abcdef0123456789abcdef" ++ [x00]);
         begin_thread := λ threadIndex, threadIndex <? 2;
         elapsed := "0.000000" |}
      "textfile.txt" (list_byte_of_string "ab" ++ [x00])
    = Ok [CallGenerateTable; BeginThread 0; BeginThread 1;
          Printf thread_failed_message;
          CloseThread 0; CloseThread 1;
          UnmapViewOfFile; CloseMapping; CloseFile]
  ∧ search_in_file (os_mapping (list_byte_of_string "ab" ++ replicate 3 x00) "0.000000")
      "textfile.txt" (list_byte_of_string "cd" ++ [x00])
    = Ok [CallGenerateTable; BeginThread 0;
          WaitForSingleObject 0; CloseThread 0;
          Printf (not_found_message "cd" "0.000000");
          UnmapViewOfFile; CloseMapping; CloseFile].
Proof. repeat split; vm_compute; reflexivity. Qed.

(** C10, at the file "abcd", NUL, "xyz" and the pattern "xy". [strlen]
    gives the text length 4, one thread is used, and it is given
    [textLength = 4 + 4 % 16 = 8]: the scan covers the NUL and the three
    bytes behind it, and finds the pattern at offset 5, wholly behind the
    NUL. *)
Example search_in_file_finds_behind_nul :
  strlen (list_byte_of_string "abcd" ++ [x00] ++ list_byte_of_string "xyz")
  = Ok 4
  ∧ chunking 4 2 = (4, 4, 1)
  ∧ thread_results
      (list_byte_of_string "abcd" ++ [x00] ++ list_byte_of_string "xyz")
      (list_byte_of_string "xy" ++ [x00]) 4 2
    ≫= (λ finished, Ok (first_found 0 finished)) = Ok (Some (0, 5))
  ∧ search_in_file
      (os_mapping
         (list_byte_of_string "abcd" ++ [x00] ++ list_byte_of_string "xyz")
         "0.000000")
      "textfile.txt" (list_byte_of_string "xy" ++ [x00])
    = Ok [CallGenerateTable; BeginThread 0;
          WaitForSingleObject 0; CloseThread 0;
          Printf (found_message "xy" "0.000000")].
Proof. repeat split; vm_compute; reflexivity. Qed.

(** * What holds beside the claims *)

(** X2. The part of C4 that the code keeps. Sixteen threads are used unless
    [textLength / 16 < patternLength], and then one. With sixteen threads
    the chunks follow one another from offset 0, each of
    [textLength / 16] bytes except the last, which takes the remainder
    too and ends at [textLength]. With one thread the chunk starts at 0
    and is given [textLength + textLength % 16] bytes. *)
Theorem chunking_chunks (n m : Z) :
  0 <= n →
  (n ÷ MAX_THREADS < m →
     num_threads n m = 1
     ∧ chunk_start n m 0 = 0
     ∧ chunk_length n m 0 = n + Z.rem n MAX_THREADS)
  ∧ (m <= n ÷ MAX_THREADS →
     num_threads n m = MAX_THREADS
     ∧ chunk_start n m 0 = 0
     ∧ (∀ k, 0 <= k < MAX_THREADS - 1 →
             chunk_length n m k = n ÷ MAX_THREADS
             ∧ chunk_start n m (k + 1) = chunk_start n m k + chunk_length n m k)
     ∧ chunk_length n m (MAX_THREADS - 1) = n ÷ MAX_THREADS + Z.rem n MAX_THREADS
     ∧ chunk_start n m (MAX_THREADS - 1) + chunk_length n m (MAX_THREADS - 1) = n).
Proof.
  intros Hn. unfold num_threads, chunk_start, chunk_length.
  destruct (chunking_cases n m Hn) as (Hex & Hdiv & [[Hlt E]|[Hle E]]);
    rewrite E; simpl; unfold MAX_THREADS in *.
  - split; [|lia]. intros _. done.
  - split; [lia|]. intros _. split; [done|]. split; [done|]. split.
    + intros k Hk. cases_Z; [lia|]. split; lia.
    + split; [done|]. simpl. lia.
Qed.

(** A text of 1600 bytes and a pattern of 5: sixteen chunks of 100; a
    text of 10 bytes and a pattern of 3: one chunk of 20. *)
Lemma chunking_chunks_witness :
  (num_threads 1600 5 = MAX_THREADS
   ∧ chunk_start 1600 5 0 = 0
   ∧ (∀ k, 0 <= k < MAX_THREADS - 1 →
           chunk_length 1600 5 k = 1600 ÷ MAX_THREADS
           ∧ chunk_start 1600 5 (k + 1)
             = chunk_start 1600 5 k + chunk_length 1600 5 k)
   ∧ chunk_length 1600 5 (MAX_THREADS - 1)
     = 1600 ÷ MAX_THREADS + Z.rem 1600 MAX_THREADS
   ∧ chunk_start 1600 5 (MAX_THREADS - 1) + chunk_length 1600 5 (MAX_THREADS - 1)
     = 1600)
  ∧ (num_threads 10 3 = 1
     ∧ chunk_start 10 3 0 = 0
     ∧ chunk_length 10 3 0 = 10 + Z.rem 10 MAX_THREADS).
Proof.
  split.
  - apply (chunking_chunks 1600 5); [lia|]. vm_compute. discriminate.
  - apply (chunking_chunks 10 3); [lia|]. vm_compute. reflexivity.
Defined.

(** X3. The part of C7 that the code keeps. On a chunk whose bytes are all
    below 128, with a non-empty pattern and its table, [search] performs
    no read outside the text, the pattern or the table: it returns, with
    [found_at] either [-1] or an offset at which the pattern stands. *)
Theorem search_7bit_returns (args : SearchArgs) :
  1 <= patternLength args →
  table_for (pattern args) (patternLength args) (badCharShiftTable args) →
  (∀ i, 0 <= i < patternLength args → is_Some (read (pattern args) i)) →
  (∀ i, 0 <= i < textLength args →
        ∃ c, read (text args) i = Some c ∧ uchar c < 128) →
  ∃ r,
    search args = Ok (set_found_at args r)
    ∧ (r = -1
       ∨ (0 <= r <= textLength args - patternLength args
          ∧ matches (text args) (pattern args) (patternLength args) r)).
Proof.
  intros Hm Htab Hpat Htext.
  destruct (search_loop_decides args Hm Htab Hpat (textLength args) Htext
              (search_fuel args) 0) as (r & Hr & Hspec); [|done|done|].
  { unfold search_fuel. lia. }
  exists r. split; [by apply search_Ok|].
  destruct Hspec as [[-> _]|(? & ? & _)]; [by left|by right].
Qed.

(** The chunk "abcxabcdabxabcdabcdabcy" and the pattern "abcdabcy". *)
Lemma search_7bit_returns_witness :
  ∃ table,
    generateBadCharacterShiftTable (list_byte_of_string "abcdabcy") 8
      (replicate 256 0) = Ok table
    ∧ ∃ r,
        search {| text := list_byte_of_string "abcxabcdabxabcdabcdabcy";
                  textLength := 23;
                  pattern := list_byte_of_string "abcdabcy";
                  patternLength := 8;
                  badCharShiftTable := table;
                  found_at := -1 |}
        = Ok {| text := list_byte_of_string "abcxabcdabxabcdabcdabcy";
                textLength := 23;
                pattern := list_byte_of_string "abcdabcy";
                patternLength := 8;
                badCharShiftTable := table;
                found_at := r |}
        ∧ (r = -1
           ∨ (0 <= r <= 23 - 8
              ∧ matches (list_byte_of_string "abcxabcdabxabcdabcdabcy")
                        (list_byte_of_string "abcdabcy") 8 r)).
Proof.
  destruct (generateBadCharacterShiftTable_spec
              (list_byte_of_string "abcdabcy") 8 (replicate 256 0))
    as (table & Htable & Htab); [simpl; lia|reflexivity|].
  exists table. split; [exact Htable|].
  apply (search_7bit_returns
           {| text := list_byte_of_string "abcxabcdabxabcdabcdabcy";
              textLength := 23;
              pattern := list_byte_of_string "abcdabcy";
              patternLength := 8;
              badCharShiftTable := table;
              found_at := -1 |}).
  - simpl. lia.
  - exact Htab.
  - intros i Hi. apply read_lt. simpl in *. lia.
  - simpl. intros i Hi.
    assert (Forall (λ c, uchar c < 128)
                   (list_byte_of_string "abcxabcdabxabcdabcdabcy")) as Hall.
    { apply (bool_decide_unpack _). vm_compute. reflexivity. }
    destruct (read_lt (list_byte_of_string "abcxabcdabxabcdabcdabcy") i)
      as [c Hc]; [simpl; lia|].
    exists c. split; [exact Hc|].
    apply read_Some in Hc. destruct Hc as [_ Hc].
    exact (Forall_lookup_1 _ _ _ _ Hall Hc).
Defined.



(** X5. The part of C10 that the code keeps. The text length is what [strlen]
    gives, and when sixteen threads are used no thread reads behind the
    first NUL of the mapped file: the run is the same whatever follows
    that NUL. *)
Theorem search_in_file_sixteen_stops_at_nul
    (opened mapped : option Z) (started : Z → bool) (seconds file_name : string)
    (b rest rest' substring : list byte) (m : Z) :
  Forall (λ c, c ≠ x00) b →
  strlen substring = Ok m →
  num_threads (Z.of_nat (length b)) m = MAX_THREADS →
  strlen (b ++ x00 :: rest) = Ok (Z.of_nat (length b))
  ∧ search_in_file
      {| create_file := opened; create_file_mapping := mapped;
         map_view_of_file := inr (b ++ x00 :: rest);
         begin_thread := started; elapsed := seconds |}
      file_name substring
    = search_in_file
        {| create_file := opened; create_file_mapping := mapped;
           map_view_of_file := inr (b ++ x00 :: rest');
           begin_thread := started; elapsed := seconds |}
        file_name substring.
Proof.
  intros Hb Hm HT. split; [by apply strlen_app|].
  unfold search_in_file. simpl.
  destruct opened; [done|]. destruct mapped; [done|].
  rewrite !strlen_app, Hm by done. simpl.
  set (n := Z.of_nat (length b)) in *.
  cases_Z; try done.
  unfold search_chunks.
  destruct (generateBadCharacterShiftTable _ _ _) as [table|]; simpl; [|done].
  unfold num_threads in HT.
  destruct (chunking_cases n m) as (Hex & Hdiv & [[Hlt E]|[Hle E]]); [lia| |];
    rewrite E in *; simpl in HT; unfold MAX_THREADS in *; [lia|].
  set (cs := n ÷ 16) in *. set (ex := Z.rem n 16) in *.
  set (R := λ args args' : SearchArgs,
              search_loop (search_fuel args) args 0
              = search_loop (search_fuel args') args' 0).
  assert (∀ k, k ∈ seqZ 0 16 →
            R (thread_args (b ++ x00 :: rest) substring m table cs ex 16 k)
              (thread_args (b ++ x00 :: rest') substring m table cs ex 16 k))
    as HR.
  { intros k Hk%elem_of_seqZ. unfold R, search_fuel. simpl.
    apply search_loop_ext; simpl; try done.
    intros i Hi. rewrite !read_drop by lia.
    rewrite !read_app_l; [done| |].
    - revert Hi. cases_Z; fold n; nia.
    - revert Hi. cases_Z; fold n; nia. }
  match goal with
  | |- context [dispatch_loop ?os (thread_args (b ++ x00 :: rest) ?s0 ?m0 ?t0
                                     ?c0 ?e0 ?T0) ?l] =>
      match goal with
      | |- context [dispatch_loop ?os' (thread_args (b ++ x00 :: rest') s0 m0
                                          t0 c0 e0 T0) l] =>
          destruct (dispatch_loop_ext os os'
                      (thread_args (b ++ x00 :: rest) s0 m0 t0 c0 e0 T0)
                      (thread_args (b ++ x00 :: rest') s0 m0 t0 c0 e0 T0)
                      R l) as [Hev Hst];
            [done|exact HR|];
          rewrite (started_threads_ext os os' l) by done;
          generalize (started_threads_elem os' l);
          generalize (started_threads os' l)
      end
  end.
  intros started0 Hstarted0.
  match goal with
  | |- context [dispatch_loop ?os ?f ?l] =>
      destruct (dispatch_loop os f l) as [events started1]
  end.
  match goal with
  | |- context [dispatch_loop ?os ?f ?l] =>
      destruct (dispatch_loop os f l) as [events' started2]
  end.
  simpl in Hev, Hst. subst events'.
  destruct Hst as [l1 l2 HF|].
  - pose proof (run_threads_ext l1 l2 HF) as Hrun.
    destruct (run_threads l1) as [fin|f1], (run_threads l2) as [fin'|f2];
      simpl; try done; [|by subst].
    by rewrite (join_loop_ext _ _ _ fin fin').
  - match goal with
    | |- run_threads ?l1 ≫= _ = run_threads ?l2 ≫= _ =>
        pose proof (run_threads_ext l1 l2) as Hrun
    end.
    destruct (run_threads _) as [fin|f1], (run_threads _) as [fin'|f2];
      simpl; try done.
    + destruct Hrun. apply Forall2_fmap, Forall_Forall2_diag, Forall_forall.
      intros k Hk. by apply HR, Hstarted0.
    + destruct Hrun. apply Forall2_fmap, Forall_Forall2_diag, Forall_forall.
      intros k Hk. by apply HR, Hstarted0.
    + f_equal. apply Hrun. apply Forall2_fmap, Forall_Forall2_diag, Forall_forall.
      intros k Hk. by apply HR, Hstarted0.
Qed.

(** Sixteen chunks of two bytes, then a NUL, then "ab" or nothing. *)
Lemma search_in_file_sixteen_stops_at_nul_witness :
  strlen (list_byte_of_string "0123456789abcdef0123456789abcdef"
            ++ x00 :: list_byte_of_string "ab")
  = Ok 32
  ∧ search_in_file
      {| create_file := None; create_file_mapping := None;
         map_view_of_file :=
           inr (list_byte_of_string "0123456789abcdef0123456789abcdef"
                  ++ x00 :: list_byte_of_string "ab");
         begin_thread := λ _, true; elapsed := "0.000000" |}
      "textfile.txt" (list_byte_of_string "ab" ++ [x00])
    = search_in_file
        {| create_file := None; create_file_mapping := None;
           map_view_of_file :=
             inr (list_byte_of_string "0123456789abcdef0123456789abcdef"
                    ++ x00 :: []);
           begin_thread := λ _, true; elapsed := "0.000000" |}
        "textfile.txt" (list_byte_of_string "ab" ++ [x00]).
Proof.
  apply (search_in_file_sixteen_stops_at_nul None None (λ _, true)
           "0.000000" "textfile.txt"
           (list_byte_of_string "0123456789abcdef0123456789abcdef")
           (list_byte_of_string "ab") []
           (list_byte_of_string "ab" ++ [x00]) 2).
  - apply (bool_decide_unpack _). vm_compute. reflexivity.
  - reflexivity.
  - reflexivity.
Defined.
(** * More of the code *)

(** ** search, on any bytes and any table *)

Lemma compare_backward_sound fuel text pattern s idx j :
  compare_backward fuel text pattern s idx = Ok j → j < 0 →
  ∀ i, 0 <= i <= idx →
       ∃ c, read pattern i = Some c ∧ read text (s + i) = Some c.
Proof.
  revert idx. induction fuel as [|fuel IH]; intros idx; simpl; cases_Z;
    try done; try (intros [= <-]; lia).
  unfold read_pattern, read_text.
  destruct (read pattern idx) as [p|] eqn:Ep; simpl; [|done].
  destruct (read text (s + idx)) as [t|] eqn:Et; simpl; [|done].
  rewrite schar_eqb. case_bool_decide as E; [|intros [= <-]; lia].
  subst t. intros Hj Hneg i Hi.
  destruct (decide (i = idx)) as [->|]; [by exists p|].
  apply (IH _ Hj Hneg). lia.
Qed.

Lemma search_step_Return args s r :
  search_step args s = Ok (Return r) →
  r = s ∧ matches (text args) (pattern args) (patternLength args) s.
Proof.
  unfold search_step.
  destruct (compare_backward _ _ _ _ _) as [j|] eqn:Ej; simpl; [|done].
  cases_Z.
  - intros [= <-]. split; [done|]. intros i Hi.
    apply (compare_backward_sound _ _ _ _ _ _ Ej); lia.
  - destruct (read_text _ _); simpl; [|done].
    destruct (read_table _ _); simpl; done.
Qed.

Lemma search_loop_sound fuel args s r :
  0 <= s → search_loop fuel args s = Ok r →
  r = -1
  ∨ (s <= r <= textLength args - patternLength args
     ∧ matches (text args) (pattern args) (patternLength args) r).
Proof.
  revert s. induction fuel as [|fuel IH]; intros s Hs; simpl; cases_Z;
    try done; try (intros [= <-]; by left).
  destruct (search_step args s) as [[r'|s']|] eqn:E; simpl; [| |done].
  - intros [= <-]. apply search_step_Return in E as [-> Hm]. right. by split.
  - intros Hr. apply search_step_progress in E.
    destruct (IH s' ltac:(lia) Hr) as [->|[Hr' Hm]]; [by left|].
    right. split; [lia|done].
Qed.

(** X6. [search] never reports a match that is not there, whatever the
    bytes of the text and whatever table it is given, right or wrong for
    the pattern, as long as the lengths are [int]s that are not negative
    and the entries are [int]s from [-1] on, which keeps line 116 within
    the [int]s: when it returns, it has changed [found_at] only, and
    [found_at] is [-1] or an offset between 0 and
    [textLength - patternLength] at which the pattern stands in the
    text. *)
Theorem search_reports_real_match (args args' : SearchArgs) :
  0 <= textLength args <= INT_MAX →
  0 <= patternLength args <= INT_MAX →
  Forall (λ entry, -1 <= entry <= INT_MAX) (badCharShiftTable args) →
  search args = Ok args' →
  args' = set_found_at args (found_at args')
  ∧ (found_at args' = -1
     ∨ (0 <= found_at args' <= textLength args - patternLength args
        ∧ matches (text args) (pattern args) (patternLength args)
                  (found_at args'))).
Proof.
  intros _ _ _ (r & Hr & ->)%search_inv. simpl. split; [done|].
  eapply (search_loop_sound _ _ 0); [lia|exact Hr].
Qed.

(** A table of zeros, which is the table of no pattern: the match at
    offset 2 is still a real one. *)
Lemma search_reports_real_match_witness :
  {| text := list_byte_of_string "xxab"; textLength := 4;
     pattern := list_byte_of_string "ab"; patternLength := 2;
     badCharShiftTable := replicate 256 0; found_at := 2 |}
  = set_found_at
      {| text := list_byte_of_string "xxab"; textLength := 4;
         pattern := list_byte_of_string "ab"; patternLength := 2;
         badCharShiftTable := replicate 256 0; found_at := -1 |} 2
  ∧ (2 = -1
     ∨ (0 <= 2 <= 4 - 2
        ∧ matches (list_byte_of_string "xxab") (list_byte_of_string "ab") 2 2)).
Proof.
  apply (search_reports_real_match
           {| text := list_byte_of_string "xxab"; textLength := 4;
              pattern := list_byte_of_string "ab"; patternLength := 2;
              badCharShiftTable := replicate 256 0; found_at := -1 |}
           {| text := list_byte_of_string "xxab"; textLength := 4;
              pattern := list_byte_of_string "ab"; patternLength := 2;
              badCharShiftTable := replicate 256 0; found_at := 2 |}).
  - by vm_compute.
  - by vm_compute.
  - apply Forall_replicate. by vm_compute.
  - vm_compute. reflexivity.
Defined.

Lemma search_step_faults args s f :
  0 <= s → s <= textLength args - patternLength args →
  textLength args <= Z.of_nat (length (text args)) →
  patternLength args <= Z.of_nat (length (pattern args)) →
  length (badCharShiftTable args) = Z.to_nat UNIQUE_CHARS →
  search_step args s = Fault f →
  ∃ c i, f = BadTableIndex (schar c)
         ∧ 128 <= uchar c
         ∧ 0 <= i < textLength args
         ∧ read (text args) i = Some c.
Proof.
  intros Hs Hsn Hn Hm Ht. unfold search_step.
  destruct (compare_backward_spec (Z.to_nat (patternLength args)) (text args)
              (pattern args) s (patternLength args - 1))
    as (j & -> & Hj1 & Hj2 & _).
  { lia. }
  { intros i Hi. split; apply read_lt; lia. }
  simpl. cases_Z; [done|].
  destruct (read_lt (text args) (s + j)) as [c Hc]; [lia|].
  rewrite (read_text_Ok _ _ _ Hc). simpl.
  unfold read_table. pose proof (uchar_range c). pose proof (schar_range c).
  unfold UNIQUE_CHARS in *.
  destruct (Z.leb_spec 0 (schar c)) as [Hc0|Hc0]; simpl.
  - destruct (Z.ltb_spec (schar c) 256); [|lia].
    destruct (lookup_lt_is_Some_2 (badCharShiftTable args) (Z.to_nat (schar c)))
      as [v ->]; [lia|]. done.
  - intros [= <-]. exists c, (s + j). split; [done|].
    split; [|split; [lia|done]].
    revert Hc0. unfold schar. cases_Z; lia.
Qed.

(** X7. What can go wrong in [search]. When the text holds at least
    [textLength] bytes, the pattern at least [patternLength] and the table
    256 entries, the lengths being [int]s that are not negative and the
    entries [int]s from [-1] on, [search] reads the text inside [0, textLength) only and
    the pattern inside [0, patternLength) only; the one fault it can run
    into is the lookup [badCharShiftTable[text[i]]] at a byte of the chunk
    whose value is 128 or more, which as a plain [char] is a negative
    index. *)
Theorem search_fault_is_table_index (args : SearchArgs) (f : fault) :
  0 <= textLength args <= INT_MAX →
  0 <= patternLength args <= INT_MAX →
  Forall (λ entry, -1 <= entry <= INT_MAX) (badCharShiftTable args) →
  textLength args <= Z.of_nat (length (text args)) →
  patternLength args <= Z.of_nat (length (pattern args)) →
  length (badCharShiftTable args) = Z.to_nat UNIQUE_CHARS →
  search args = Fault f →
  ∃ c i, f = BadTableIndex (schar c)
         ∧ -128 <= schar c < 0
         ∧ 0 <= i < textLength args
         ∧ read (text args) i = Some c.
Proof.
  intros _ _ _ Hn Hm Ht. unfold search.
  destruct (search_loop (search_fuel args) args 0) as [r|f'] eqn:E; simpl; [done|].
  intros [= ->].
  assert (∀ fuel s, 0 <= s → search_loop fuel args s = Fault f →
                    f = OutOfFuel
                    ∨ ∃ c i, f = BadTableIndex (schar c) ∧ 128 <= uchar c
                             ∧ 0 <= i < textLength args
                             ∧ read (text args) i = Some c) as Hloop.
  { induction fuel as [|fuel IH]; intros s Hs; simpl; cases_Z; try done.
    { intros [= <-]. by left. }
    destruct (search_step args s) as [[r|s']|f0] eqn:Es; simpl; [done| |].
    - intros Hf. apply search_step_progress in Es. apply (IH s'); [lia|done].
    - intros [= ->]. right. by apply (search_step_faults args s). }
  destruct (Hloop (search_fuel args) 0 ltac:(lia) E) as [->|(c & i & -> & Hc & Hi & Hr)].
  - exfalso. apply (search_loop_fuel (search_fuel args) args 0); [|done].
    unfold search_fuel. lia.
  - exists c, i. split; [done|]. split; [|done].
    pose proof (uchar_range c). unfold schar. cases_Z; lia.
Qed.

(** The chunk of the one byte 0xE9 and the pattern "a". *)
Lemma search_fault_is_table_index_witness :
  ∃ c i, BadTableIndex (-23) = BadTableIndex (schar c)
         ∧ -128 <= schar c < 0
         ∧ 0 <= i < 1
         ∧ read [xe9] i = Some c.
Proof.
  apply (search_fault_is_table_index
           {| text := [xe9]; textLength := 1;
              pattern := [x61]; patternLength := 1;
              badCharShiftTable := <[97%nat := 0]> (replicate 256 (-1));
              found_at := -1 |}
           (BadTableIndex (-23))).
  - by vm_compute.
  - by vm_compute.
  - apply (bool_decide_unpack _). vm_compute. exact I.
  - simpl. lia.
  - simpl. lia.
  - reflexivity.
  - vm_compute. reflexivity.
Defined.

(** ** search, on bytes below 128 *)

(** X8. On a chunk whose bytes are all below 128, with a non-empty
    pattern and its table, [search] is a correct leftmost search: it stores
    [-1] exactly when the pattern stands nowhere in the chunk, and
    otherwise the least offset at which it stands. *)
Theorem search_7bit_leftmost (args : SearchArgs) :
  1 <= patternLength args →
  table_for (pattern args) (patternLength args) (badCharShiftTable args) →
  (∀ i, 0 <= i < patternLength args → is_Some (read (pattern args) i)) →
  (∀ i, 0 <= i < textLength args →
        ∃ c, read (text args) i = Some c ∧ uchar c < 128) →
  ∃ r,
    search args = Ok (set_found_at args r)
    ∧ ((r = -1
        ∧ ∀ q, 0 <= q <= textLength args - patternLength args →
               ¬ matches (text args) (pattern args) (patternLength args) q)
       ∨ (0 <= r <= textLength args - patternLength args
          ∧ matches (text args) (pattern args) (patternLength args) r
          ∧ ∀ q, 0 <= q < r →
                 ¬ matches (text args) (pattern args) (patternLength args) q)).
Proof.
  intros Hm Htab Hpat Htext.
  destruct (search_loop_decides args Hm Htab Hpat (textLength args) Htext
              (search_fuel args) 0) as (r & Hr & Hspec); [|done|done|].
  { unfold search_fuel. lia. }
  exists r. split; [by apply search_Ok|done].
Qed.

(** The chunk "abababc" and the pattern "abc", which stands at 4 only. *)
Lemma search_7bit_leftmost_witness :
  ∃ table,
    generateBadCharacterShiftTable (list_byte_of_string "abc") 3
      (replicate 256 0) = Ok table
    ∧ ∃ r,
        search {| text := list_byte_of_string "abababc"; textLength := 7;
                  pattern := list_byte_of_string "abc"; patternLength := 3;
                  badCharShiftTable := table; found_at := -1 |}
        = Ok {| text := list_byte_of_string "abababc"; textLength := 7;
                pattern := list_byte_of_string "abc"; patternLength := 3;
                badCharShiftTable := table; found_at := r |}
        ∧ ((r = -1
            ∧ ∀ q, 0 <= q <= 7 - 3 →
                   ¬ matches (list_byte_of_string "abababc")
                             (list_byte_of_string "abc") 3 q)
           ∨ (0 <= r <= 7 - 3
              ∧ matches (list_byte_of_string "abababc")
                        (list_byte_of_string "abc") 3 r
              ∧ ∀ q, 0 <= q < r →
                     ¬ matches (list_byte_of_string "abababc")
                               (list_byte_of_string "abc") 3 q)).
Proof.
  destruct (generateBadCharacterShiftTable_spec
              (list_byte_of_string "abc") 3 (replicate 256 0))
    as (table & Htable & Htab); [simpl; lia|reflexivity|].
  exists table. split; [exact Htable|].
  apply (search_7bit_leftmost
           {| text := list_byte_of_string "abababc"; textLength := 7;
              pattern := list_byte_of_string "abc"; patternLength := 3;
              badCharShiftTable := table; found_at := -1 |}).
  - simpl. lia.
  - exact Htab.
  - intros i Hi. apply read_lt. simpl in *. lia.
  - simpl. intros i Hi.
    assert (Forall (λ c, uchar c < 128) (list_byte_of_string "abababc")) as Hall.
    { apply (bool_decide_unpack _). vm_compute. reflexivity. }
    destruct (read_lt (list_byte_of_string "abababc") i) as [c Hc]; [simpl; lia|].
    exists c. split; [exact Hc|].
    apply read_Some in Hc. destruct Hc as [_ Hc].
    exact (Forall_lookup_1 _ _ _ _ Hall Hc).
Defined.

(** X9. The two edge cases of the lengths. A pattern longer than the
    chunk is not looked for: [search] stores [-1] and reads no byte, be the
    text, the pattern and the table readable or not. A pattern as long as
    the chunk is compared at offset 0 only: on bytes below 128 the result
    is 0 when the chunk is the pattern and [-1] otherwise. *)
Theorem search_edge_lengths (args : SearchArgs) :
  (textLength args < patternLength args →
   search args = Ok (set_found_at args (-1)))
  ∧ (textLength args = patternLength args →
     1 <= patternLength args →
     table_for (pattern args) (patternLength args) (badCharShiftTable args) →
     (∀ i, 0 <= i < patternLength args → is_Some (read (pattern args) i)) →
     (∀ i, 0 <= i < textLength args →
           ∃ c, read (text args) i = Some c ∧ uchar c < 128) →
     (matches (text args) (pattern args) (patternLength args) 0
      ∧ search args = Ok (set_found_at args 0))
     ∨ (¬ matches (text args) (pattern args) (patternLength args) 0
        ∧ search args = Ok (set_found_at args (-1)))).
Proof.
  split.
  - intros Hlt. apply search_Ok. unfold search_fuel.
    replace (Z.to_nat _) with 0%nat by lia. simpl. cases_Z; [lia|done].
  - intros Heq Hm Htab Hpat Htext.
    destruct (search_loop_decides args Hm Htab Hpat (textLength args) Htext
                (search_fuel args) 0) as (r & Hr & Hspec); [|done|done|].
    { unfold search_fuel. lia. }
    destruct Hspec as [[-> Hno]|(Hr0 & Hmatch & _)].
    + right. split; [apply Hno; lia|by apply search_Ok].
    + assert (r = 0) as -> by lia. left. split; [done|by apply search_Ok].
Qed.

(** The chunk "abc" and the pattern "abc"; the chunk "ab" and the
    pattern "abc". *)
Lemma search_edge_lengths_witness :
  ∃ table,
    generateBadCharacterShiftTable (list_byte_of_string "abc") 3
      (replicate 256 0) = Ok table
    ∧ search {| text := list_byte_of_string "ab"; textLength := 2;
                pattern := list_byte_of_string "abc"; patternLength := 3;
                badCharShiftTable := table; found_at := 7 |}
      = Ok {| text := list_byte_of_string "ab"; textLength := 2;
              pattern := list_byte_of_string "abc"; patternLength := 3;
              badCharShiftTable := table; found_at := -1 |}
    ∧ ((matches (list_byte_of_string "abc") (list_byte_of_string "abc") 3 0
        ∧ search {| text := list_byte_of_string "abc"; textLength := 3;
                    pattern := list_byte_of_string "abc"; patternLength := 3;
                    badCharShiftTable := table; found_at := -1 |}
          = Ok {| text := list_byte_of_string "abc"; textLength := 3;
                  pattern := list_byte_of_string "abc"; patternLength := 3;
                  badCharShiftTable := table; found_at := 0 |})
       ∨ (¬ matches (list_byte_of_string "abc") (list_byte_of_string "abc") 3 0
          ∧ search {| text := list_byte_of_string "abc"; textLength := 3;
                      pattern := list_byte_of_string "abc"; patternLength := 3;
                      badCharShiftTable := table; found_at := -1 |}
            = Ok {| text := list_byte_of_string "abc"; textLength := 3;
                    pattern := list_byte_of_string "abc"; patternLength := 3;
                    badCharShiftTable := table; found_at := -1 |})).
Proof.
  destruct (generateBadCharacterShiftTable_spec
              (list_byte_of_string "abc") 3 (replicate 256 0))
    as (table & Htable & Htab); [simpl; lia|reflexivity|].
  exists table. split; [exact Htable|]. split.
  - apply (proj1 (search_edge_lengths
                    {| text := list_byte_of_string "ab"; textLength := 2;
                       pattern := list_byte_of_string "abc"; patternLength := 3;
                       badCharShiftTable := table; found_at := 7 |})).
    simpl. lia.
  - apply (proj2 (search_edge_lengths
                    {| text := list_byte_of_string "abc"; textLength := 3;
                       pattern := list_byte_of_string "abc"; patternLength := 3;
                       badCharShiftTable := table; found_at := -1 |})).
    + reflexivity.
    + simpl. lia.
    + exact Htab.
    + intros i Hi. apply read_lt. simpl in *. lia.
    + simpl. intros i Hi.
      assert (Forall (λ c, uchar c < 128) (list_byte_of_string "abc")) as Hall.
      { apply (bool_decide_unpack _). vm_compute. reflexivity. }
      destruct (read_lt (list_byte_of_string "abc") i) as [c Hc]; [simpl; lia|].
      exists c. split; [exact Hc|].
      apply read_Some in Hc. destruct Hc as [_ Hc].
      exact (Forall_lookup_1 _ _ _ _ Hall Hc).
Defined.

(** X10. A thread reads its own chunk only. Two runs of [search] whose
    texts hold the same bytes at the offsets below [textLength], and that
    agree on the lengths, the pattern and the table, store the same
    [found_at] or run into the same fault, whatever the memory holds from
    [textLength] on. *)
Theorem search_depends_on_chunk_only (args args' : SearchArgs) :
  textLength args' = textLength args →
  pattern args' = pattern args →
  patternLength args' = patternLength args →
  badCharShiftTable args' = badCharShiftTable args →
  (∀ i, 0 <= i < textLength args → read (text args) i = read (text args') i) →
  match search args, search args' with
  | Ok done, Ok done' => found_at done = found_at done'
  | Fault f, Fault f' => f = f'
  | _, _ => False
  end.
Proof.
  intros Hn Hp Hm Ht Hagree. unfold search.
  replace (search_fuel args') with (search_fuel args)
    by (unfold search_fuel; by rewrite Hn, Hm).
  rewrite <- (search_loop_ext (search_fuel args) args args' 0) by (done || lia).
  destruct (search_loop _ _ _); simpl; done.
Qed.

(** The chunk "xxab" of four bytes, followed by "ab" or by nothing. *)
Lemma search_depends_on_chunk_only_witness :
  match
    search {| text := list_byte_of_string "xxabab"; textLength := 4;
              pattern := list_byte_of_string "bab"; patternLength := 3;
              badCharShiftTable := replicate 256 (-1); found_at := -1 |},
    search {| text := list_byte_of_string "xxab"; textLength := 4;
              pattern := list_byte_of_string "bab"; patternLength := 3;
              badCharShiftTable := replicate 256 (-1); found_at := -1 |}
  with
  | Ok done, Ok done' => found_at done = found_at done'
  | Fault f, Fault f' => f = f'
  | _, _ => False
  end.
Proof.
  apply (search_depends_on_chunk_only
           {| text := list_byte_of_string "xxabab"; textLength := 4;
              pattern := list_byte_of_string "bab"; patternLength := 3;
              badCharShiftTable := replicate 256 (-1); found_at := -1 |}
           {| text := list_byte_of_string "xxab"; textLength := 4;
              pattern := list_byte_of_string "bab"; patternLength := 3;
              badCharShiftTable := replicate 256 (-1); found_at := -1 |});
    try reflexivity.
  simpl. intros i Hi.
  assert (i = 0 ∨ i = 1 ∨ i = 2 ∨ i = 3) as [->|[->|[->| ->]]] by lia;
    reflexivity.
Defined.

(** ** The shape of a run *)

Lemma dispatch_loop_shape os args_of (count : nat) (a T : Z) :
  T - a = Z.of_nat count → 0 <= a →
  dispatch_loop os args_of (seqZ a (T - a))
  = (BeginThread <$> seqZ a (T - a), Some (args_of <$> seqZ a (T - a)))
  ∨ ∃ f, a <= f < T
         ∧ (∀ i, a <= i < f → begin_thread os i = true)
         ∧ begin_thread os f = false
         ∧ dispatch_loop os args_of (seqZ a (T - a))
           = ((BeginThread <$> seqZ a (f - a))
                ++ Printf thread_failed_message
                :: (CloseThread <$> seqZ 0 f)
                ++ [UnmapViewOfFile; CloseMapping; CloseFile],
              None).
Proof.
  revert a. induction count as [|count IH]; intros a Hc Ha.
  - left. by rewrite seqZ_nil by lia.
  - destruct (begin_thread os a) eqn:Ea.
    + destruct (IH (Z.succ a)) as [E|(f & Hf & Hok & Hfail & E)]; [lia|lia| |].
      * left. rewrite (seqZ_cons a) by lia. simpl. rewrite Ea.
        replace (Z.pred (T - a)) with (T - Z.succ a) by lia. by rewrite E.
      * right. exists f. split; [lia|]. split.
        { intros i Hi. destruct (decide (i = a)) as [->|]; [done|].
          apply Hok. lia. }
        split; [done|]. rewrite (seqZ_cons a (T - a)) by lia. simpl. rewrite Ea.
        replace (Z.pred (T - a)) with (T - Z.succ a) by lia. rewrite E. simpl.
        rewrite (seqZ_cons a (f - a)) by lia. simpl.
        by replace (Z.pred (f - a)) with (f - Z.succ a) by lia.
    + right. exists a. split; [lia|]. split; [intros; lia|]. split; [done|].
      rewrite (seqZ_cons a) by lia. simpl. rewrite Ea.
      by rewrite Z.sub_diag.
Qed.

Lemma num_threads_cases n m :
  (num_threads n m = 1 ∨ num_threads n m = MAX_THREADS).
Proof. unfold num_threads, chunking. cases_Z; simpl; auto. Qed.

(** What a run that returns has done: one of six things. *)
Lemma search_in_file_shape os file_name substring trace :
  search_in_file os file_name substring = Ok trace →
  (∃ msg, trace = [Printf msg] ∧ acquired os = no_handles)
  ∨ (∃ msg, trace = [Printf msg; CloseFile]
            ∧ acquired os = mkHandles true false false [])
  ∨ (∃ msg, trace = [Printf msg; CloseMapping; CloseFile]
            ∧ acquired os = mkHandles true true false [])
  ∨ (∃ msg, trace = [Printf msg]
            ∧ acquired os = mkHandles true true true [])
  ∨ (∃ T f, acquired os = mkHandles true true true []
            ∧ 0 <= f < T
            ∧ trace = CallGenerateTable
                        :: (BeginThread <$> seqZ 0 f)
                        ++ Printf thread_failed_message
                        :: (CloseThread <$> seqZ 0 f)
                        ++ [UnmapViewOfFile; CloseMapping; CloseFile])
  ∨ (∃ T k msg, acquired os = mkHandles true true true []
                ∧ 0 <= k < T
                ∧ trace = CallGenerateTable
                            :: (BeginThread <$> seqZ 0 T)
                            ++ join_events 0 (k + 1) ++ [Printf msg])
  ∨ (∃ T msg, acquired os = mkHandles true true true []
              ∧ 0 <= T
              ∧ trace = CallGenerateTable
                          :: (BeginThread <$> seqZ 0 T)
                          ++ join_events 0 T
                          ++ [Printf msg; UnmapViewOfFile; CloseMapping;
                              CloseFile]).
Proof.
  unfold search_in_file, acquired.
  destruct (create_file os); [intros [= <-]; left; by eexists|].
  destruct (create_file_mapping os);
    [intros [= <-]; right; left; by eexists|].
  destruct (map_view_of_file os) as [e|fileContent];
    [intros [= <-]; right; right; left; by eexists|].
  destruct (strlen fileContent) as [n|]; simpl; [|done].
  destruct (strlen substring) as [m|]; simpl; [|done].
  cases_Z; try (intros [= <-]; right; right; right; left; by eexists).
  unfold search_chunks.
  destruct (generateBadCharacterShiftTable _ _ _) as [table|]; simpl; [|done].
  pose proof (num_threads_cases n m) as HT. unfold num_threads in HT.
  destruct (chunking n m) as [[chunkSize extra] T]. simpl in HT.
  assert (0 <= T) as HT0 by (unfold MAX_THREADS in HT; lia).
  match goal with
  | |- context [dispatch_loop os ?f _] =>
      destruct (dispatch_loop_shape os f (Z.to_nat T) 0 T)
        as [E|(f0 & Hf & _ & _ & E)]; [lia|lia| |]
  end; rewrite Z.sub_0_r in E; rewrite E.
  - destruct (run_threads _) as [finished|] eqn:Erun; simpl; [|done].
    intros [= <-]. do 5 right.
    pose proof (Forall2_length _ _ _ (run_threads_inv _ _ Erun)) as Hlen.
    rewrite length_fmap, length_seqZ in Hlen.
    destruct (first_found 0 finished) as [[k r]|] eqn:Ef.
    + left. exists T, k. eexists. split; [done|].
      destruct (first_found_Some _ _ _ _ Ef) as (i & a & Hi & -> & _).
      apply lookup_lt_Some in Hi. split; [lia|].
      rewrite (join_loop_found _ _ _ _ _ _ Ef).
      by replace (0 + Z.of_nat i - 0 + 1) with (0 + Z.of_nat i + 1) by lia.
    + right. exists T. eexists. split; [done|]. split; [done|].
      rewrite (join_loop_not_found _ _ _ _ Ef), <- Hlen.
      by rewrite Z2Nat.id by done.
  - destruct (run_threads _); simpl; [|done].
    intros [= <-]. do 4 right. left. exists T, f0. split; [done|].
    split; [lia|]. by rewrite Z.sub_0_r.
Qed.

(** ** The message *)

Lemma Forall_join_events (P : event → Prop) j count :
  (∀ i, P (WaitForSingleObject i)) → (∀ i, P (CloseThread i)) →
  Forall P (join_events j count).
Proof.
  intros Hw Hc. unfold join_events. apply Forall_bind, Forall_forall.
  intros i _. simpl. repeat constructor; done.
Qed.

Lemma Forall_fmap_all {A} (P : event → Prop) (f : A → event) (l : list A) :
  (∀ i, P (f i)) → Forall P (f <$> l).
Proof. intros H. apply Forall_fmap, Forall_forall. intros i _. apply H. Qed.

(** X11. Every run of [search_in_file] that returns prints exactly one
    message, and before that message it releases nothing: what comes
    before is the table construction, thread starts, waits and closes of
    thread handles, and what comes after is closes and releases only. *)
Theorem search_in_file_prints_once (os : OS) (file_name : string)
    (substring : list byte) (trace : list event) :
  search_in_file os file_name substring = Ok trace →
  ∃ before msg after,
    trace = before ++ Printf msg :: after
    ∧ Forall (λ e, is_printf e = false ∧ is_release e = false) before
    ∧ Forall (λ e, is_printf e = false ∧ is_scan_event e = false) after.
Proof.
  intros Hrun.
  destruct (search_in_file_shape _ _ _ _ Hrun)
    as [(msg & -> & _)|[(msg & -> & _)|[(msg & -> & _)|[(msg & -> & _)|
        [(T & f & _ & _ & ->)|[(T & k & msg & _ & _ & ->)|(T & msg & _ & _ & ->)]]]]]].
  - exists [], msg, []. repeat constructor.
  - exists [], msg, [CloseFile]. repeat constructor.
  - exists [], msg, [CloseMapping; CloseFile]. repeat constructor.
  - exists [], msg, []. repeat constructor.
  - exists (CallGenerateTable :: (BeginThread <$> seqZ 0 f)), thread_failed_message,
      ((CloseThread <$> seqZ 0 f) ++ [UnmapViewOfFile; CloseMapping; CloseFile]).
    split; [done|]. split.
    + constructor; [done|]. by apply Forall_fmap_all.
    + apply Forall_app. split; [by apply Forall_fmap_all|repeat constructor].
  - exists (CallGenerateTable :: (BeginThread <$> seqZ 0 T) ++ join_events 0 (k + 1)),
      msg, [].
    split; [simpl; by rewrite <- app_assoc|]. split; [|constructor].
    constructor; [done|]. apply Forall_app.
    split; [by apply Forall_fmap_all|by apply Forall_join_events].
  - exists (CallGenerateTable :: (BeginThread <$> seqZ 0 T) ++ join_events 0 T),
      msg, [UnmapViewOfFile; CloseMapping; CloseFile].
    split; [simpl; by rewrite <- app_assoc|]. split; [|repeat constructor].
    constructor; [done|]. apply Forall_app.
    split; [by apply Forall_fmap_all|by apply Forall_join_events].
Qed.

(** A text of 32 bytes without the pattern: thirty-three events before
    the message, three releases after it. *)
Lemma search_in_file_prints_once_witness :
  ∃ before msg after,
    CallGenerateTable
      :: (BeginThread <$> seqZ 0 16) ++ join_events 0 16
      ++ [Printf (not_found_message "zz" "0.000000");
          UnmapViewOfFile; CloseMapping; CloseFile]
    = before ++ Printf msg :: after
    ∧ Forall (λ e, is_printf e = false ∧ is_release e = false) before
    ∧ Forall (λ e, is_printf e = false ∧ is_scan_event e = false) after.
Proof.
  apply (search_in_file_prints_once
           (os_mapping
              (list_byte_of_string "0123456789abcdef0123456789abcdef" ++ [x00])
              "0.000000")
           "textfile.txt" (list_byte_of_string "zz" ++ [x00])).
  vm_compute. reflexivity.
Defined.

(** ** Handles *)

Lemma handles_after_app h l1 l2 :
  handles_after h (l1 ++ l2)
  = match handles_after h l1 with
    | Some h' => handles_after h' l2
    | None => None
    end.
Proof.
  revert h. induction l1 as [|e l1 IH]; intros h; simpl; [done|].
  destruct (handle_step h e); [apply IH|done].
Qed.

Lemma filter_all_true (l : list Z) (j : Z) :
  Forall (λ i, i ≠ j) l → filter (λ i, i ≠ j) l = l.
Proof.
  induction 1 as [|y l' Hy Hl IH]; [done|].
  rewrite filter_cons_True by done. by rewrite IH.
Qed.

Lemma filter_ne_seqZ j count :
  0 < count →
  filter (λ i, i ≠ j) (seqZ j count) = seqZ (j + 1) (count - 1).
Proof.
  intros Hc. rewrite seqZ_cons by done.
  rewrite filter_cons_False by (intros H; by apply H).
  replace (Z.succ j) with (j + 1) by lia.
  replace (Z.pred count) with (count - 1) by lia.
  apply filter_all_true, Forall_seqZ. intros; lia.
Qed.

Lemma handles_after_begin a b c j count :
  0 <= j → 0 <= count →
  handles_after (mkHandles a b c (seqZ 0 j)) (BeginThread <$> seqZ j count)
  = Some (mkHandles a b c (seqZ 0 (j + count))).
Proof.
  intros Hj Hc. remember (Z.to_nat count) as fuel eqn:Hfuel.
  revert j count Hj Hc Hfuel.
  induction fuel as [|fuel IH]; intros j count Hj Hc Hfuel.
  - replace count with 0 by lia. by rewrite Z.add_0_r.
  - rewrite (seqZ_cons j count) by lia. simpl.
    destruct (decide (j ∈ seqZ 0 j)) as [Hin|_].
    { apply elem_of_seqZ in Hin. lia. }
    replace (seqZ 0 j ++ [j]) with (seqZ 0 (Z.succ j)).
    2:{ replace (Z.succ j) with (j + 1) by lia.
        rewrite seqZ_app by lia. by rewrite Z.add_0_l. }
    rewrite IH by lia. do 2 f_equal. f_equal. lia.
Qed.

Lemma handles_after_close a b c j count total :
  0 <= count <= total →
  handles_after (mkHandles a b c (seqZ j total)) (CloseThread <$> seqZ j count)
  = Some (mkHandles a b c (seqZ (j + count) (total - count))).
Proof.
  intros Hc. remember (Z.to_nat count) as fuel eqn:Hfuel.
  revert j count total Hc Hfuel.
  induction fuel as [|fuel IH]; intros j count total Hc Hfuel.
  - replace count with 0 by lia. by rewrite Z.add_0_r, Z.sub_0_r.
  - rewrite (seqZ_cons j count) by lia. simpl.
    destruct (decide (j ∈ seqZ j total)) as [_|Hin].
    2:{ exfalso. apply Hin, elem_of_seqZ. lia. }
    rewrite filter_ne_seqZ by lia.
    replace (Z.succ j) with (j + 1) by lia.
    rewrite IH by lia. do 2 f_equal. f_equal; lia.
Qed.

Lemma handles_after_join a b c j count total :
  0 <= count <= total →
  handles_after (mkHandles a b c (seqZ j total)) (join_events j count)
  = Some (mkHandles a b c (seqZ (j + count) (total - count))).
Proof.
  intros Hc. remember (Z.to_nat count) as fuel eqn:Hfuel.
  revert j count total Hc Hfuel.
  induction fuel as [|fuel IH]; intros j count total Hc Hfuel.
  - replace count with 0 by lia. by rewrite Z.add_0_r, Z.sub_0_r.
  - rewrite join_events_cons by lia.
    assert (j ∈ seqZ j total) as Hin by (apply elem_of_seqZ; lia).
    cbn [handles_after handle_step threads_open file_open mapping_open
         view_mapped].
    rewrite decide_True by done.
    cbn [handles_after handle_step threads_open file_open mapping_open
         view_mapped].
    rewrite decide_True by done.
    rewrite filter_ne_seqZ by lia.
    rewrite IH by lia. do 2 f_equal. f_equal; lia.
Qed.

(** X12. Handle discipline of [search_in_file].  Started from what the
    three opening calls acquired, every event of a run acts on a handle
    that is held at that moment: no wait on, and no close of, a thread
    handle that is not open, no thread started twice, nothing unmapped or
    closed twice.  At the return either nothing is held any more, or no
    release was made at all: then the file, the mapping and the view are
    still held, together with the handles of the threads [k], ...,
    [k + count - 1] that were started and never waited for. *)
Theorem search_in_file_handles (os : OS) (file_name : string)
    (substring : list byte) (trace : list event) :
  search_in_file os file_name substring = Ok trace →
  ∃ final,
    handles_after (acquired os) trace = Some final
    ∧ (final = no_handles
       ∨ ∃ k count,
           0 <= k ∧ 0 <= count
           ∧ final = mkHandles true true true (seqZ k count)
           ∧ Forall (λ e, is_release e = false) trace).
Proof.
  intros Hrun.
  destruct (search_in_file_shape _ _ _ _ Hrun)
    as [(msg & -> & ->)|[(msg & -> & ->)|[(msg & -> & ->)|[(msg & -> & ->)|
        [(T & f & -> & Hf & ->)|[(T & k & msg & -> & Hk & ->)
                                |(T & msg & -> & HT & ->)]]]]]].
  - exists no_handles. split; [done|by left].
  - exists no_handles. split; [done|by left].
  - exists no_handles. split; [done|by left].
  - eexists. split; [done|]. right. exists 0, 0.
    repeat split; try lia. by repeat constructor.
  - exists no_handles. split; [|by left].
    change (mkHandles true true true []) with
      (mkHandles true true true (seqZ 0 0)).
    cbn [handles_after handle_step].
    rewrite handles_after_app, handles_after_begin by lia.
    cbn [handles_after handle_step].
    rewrite handles_after_app, Z.add_0_l, handles_after_close by lia.
    by rewrite Z.sub_diag.
  - eexists. split.
    + change (mkHandles true true true []) with
        (mkHandles true true true (seqZ 0 0)).
      cbn [handles_after handle_step].
      rewrite handles_after_app, handles_after_begin by lia.
      rewrite handles_after_app, Z.add_0_l, handles_after_join by lia.
      reflexivity.
    + right. exists (0 + (k + 1)), (T - (k + 1)).
      split; [lia|]. split; [lia|]. split; [done|].
      constructor; [done|]. apply Forall_app. split.
      { apply Forall_fmap, Forall_forall. by intros. }
      apply Forall_app. split; [|by repeat constructor].
      unfold join_events. apply Forall_bind, Forall_forall.
      intros x _. by repeat constructor.
  - exists no_handles. split; [|by left].
    change (mkHandles true true true []) with
      (mkHandles true true true (seqZ 0 0)).
    cbn [handles_after handle_step].
    rewrite handles_after_app, handles_after_begin by lia.
    rewrite handles_after_app, Z.add_0_l, handles_after_join by lia.
    by rewrite Z.sub_diag.
Qed.

(** A text of 32 bytes that begins with the pattern: thread 0 reports it,
    and the run returns holding the file, the mapping, the view and the
    handles of threads 1 to 15. *)
Lemma search_in_file_handles_witness :
  ∃ final,
    handles_after (mkHandles true true true [])
      (CallGenerateTable
         :: (BeginThread <$> seqZ 0 16) ++ join_events 0 1
         ++ [Printf (found_message "ab" "0.000000")])
    = Some final
    ∧ (final = no_handles
       ∨ ∃ k count,
           0 <= k ∧ 0 <= count
           ∧ final = mkHandles true true true (seqZ k count)
           ∧ Forall (λ e, is_release e = false)
               (CallGenerateTable
                  :: (BeginThread <$> seqZ 0 16) ++ join_events 0 1
                  ++ [Printf (found_message "ab" "0.000000")])).
Proof.
  apply (search_in_file_handles
           (os_mapping
              (list_byte_of_string "abcdefghijklmnopqrstuvwxyz012345" ++ [x00])
              "0.000000")
           "textfile.txt" (list_byte_of_string "ab" ++ [x00])).
  vm_compute. reflexivity.
Defined.

(** ** The Found message is never wrong *)

Lemma found_message_other s t file_name error :
  found_message s t ≠ open_error_message file_name error
  ∧ found_message s t ≠ mapping_error_message error
  ∧ found_message s t ≠ view_error_message error
  ∧ found_message s t ≠ file_empty_message file_name
  ∧ found_message s t ≠ pattern_empty_message
  ∧ found_message s t ≠ pattern_too_long_message
  ∧ found_message s t ≠ thread_failed_message
  ∧ found_message s t ≠ not_found_message s t.
Proof.
  unfold open_error_message.
  repeat split; try (destruct (_ =? _); [|destruct (_ =? _)]); discriminate.
Qed.

Lemma found_message_not_started s t (l : list Z) :
  Printf (found_message s t) ∉ (BeginThread <$> l).
Proof. intros (x & [=] & _)%list_elem_of_fmap. Qed.

Lemma found_message_not_closed s t (l : list Z) :
  Printf (found_message s t) ∉ (CloseThread <$> l).
Proof. intros (x & [=] & _)%list_elem_of_fmap. Qed.

Lemma found_message_not_joined s t j count :
  Printf (found_message s t) ∉ join_events j count.
Proof.
  unfold join_events. intros (x & H & _)%list_elem_of_bind.
  apply elem_of_cons in H as [[=]|H]. apply list_elem_of_singleton in H.
  discriminate.
Qed.

Lemma matches_drop (mem pattern : list byte) (m s : Z) (k : nat) :
  0 <= s → matches (drop k mem) pattern m s →
  matches mem pattern m (Z.of_nat k + s).
Proof.
  intros Hs H j Hj. destruct (H j Hj) as (c & Hp & Ht). exists c.
  split; [done|]. rewrite read_drop in Ht by lia.
  by rewrite <- Z.add_assoc.
Qed.

(** X13. [search_in_file] never prints the Found message wrongly, whatever
    the bytes of the file: when the message is in the trace, the file was
    mapped, both strings end, and the pattern stands in the mapped memory
    at an offset [i] at which it ends within the [n + n % 16] bytes that
    the threads are given, and within the text itself when sixteen threads
    run. *)
Theorem search_in_file_found_is_real (os : OS) (file_name : string)
    (substring : list byte) (trace : list event) (s t : string) :
  search_in_file os file_name substring = Ok trace →
  Printf (found_message s t) ∈ trace →
  ∃ fileContent n m i,
    map_view_of_file os = inr fileContent
    ∧ strlen fileContent = Ok n ∧ strlen substring = Ok m
    ∧ 1 <= m <= n
    ∧ 0 <= i ∧ i + m <= n + Z.rem n MAX_THREADS
    ∧ (m <= n ÷ MAX_THREADS → i + m <= n)
    ∧ matches fileContent substring m i.
Proof.
  pose proof (found_message_other s t file_name) as Hne.
  unfold search_in_file.
  destruct (create_file os) as [e|].
  { intros [= <-] [=]%list_elem_of_singleton. by destruct (Hne e) as (? & _). }
  destruct (create_file_mapping os) as [e|].
  { intros [= <-] Hin. repeat (apply elem_of_cons in Hin as [[=]|Hin]).
    by apply elem_of_nil in Hin. }
  destruct (map_view_of_file os) as [e|fileContent].
  { intros [= <-] Hin. repeat (apply elem_of_cons in Hin as [[=]|Hin]).
    by apply elem_of_nil in Hin. }
  destruct (Hne 0) as (_ & _ & _ & Hne1 & Hne2 & Hne3 & Hne4 & _). clear Hne.
  destruct (strlen fileContent) as [n|] eqn:En; simpl; [|done].
  destruct (strlen substring) as [m|] eqn:Em; simpl; [|done].
  pose proof (strlen_Ok _ _ En) as [Hn0 _].
  pose proof (strlen_Ok _ _ Em) as [Hm0 _].
  cases_Z; try (by intros [= <-] [=]%list_elem_of_singleton).
  unfold search_chunks.
  destruct (generateBadCharacterShiftTable _ _ _) as [table|]; simpl; [|done].
  pose proof (num_threads_cases n m) as HT. unfold num_threads in HT.
  destruct (chunking_cases n m) as (Hex & Hn & Hmode); [lia|].
  destruct (chunking n m) as [[chunkSize extra] T] eqn:Ech. simpl in HT.
  assert (0 <= T) as HT0 by (unfold MAX_THREADS in HT; lia).
  match goal with
  | |- context [dispatch_loop os ?f _] =>
      destruct (dispatch_loop_shape os f (Z.to_nat T) 0 T)
        as [E|(f0 & Hf & _ & _ & E)]; [lia|lia| |]
  end; rewrite Z.sub_0_r in E; rewrite E.
  2:{ destruct (run_threads _); simpl; [|done].
      intros [= <-] Hin. exfalso.
      apply elem_of_cons in Hin as [[=]|Hin].
      apply elem_of_app in Hin as [Hin|Hin];
        [by apply found_message_not_started in Hin|].
      apply elem_of_cons in Hin as [[=]|Hin].
      apply elem_of_app in Hin as [Hin|Hin];
        [by apply found_message_not_closed in Hin|].
      repeat (apply elem_of_cons in Hin as [[=]|Hin]).
      by apply elem_of_nil in Hin. }
  destruct (run_threads _) as [finished|] eqn:Erun; simpl; [|done].
  intros [= <-] Hin.
  apply elem_of_cons in Hin as [[=]|Hin].
  apply elem_of_app in Hin as [Hin|Hin];
    [by apply found_message_not_started in Hin|].
  destruct (first_found 0 finished) as [[k r]|] eqn:Ef.
  2:{ exfalso. rewrite (join_loop_not_found _ _ _ _ Ef) in Hin.
      apply elem_of_app in Hin as [Hin|Hin];
        [by apply found_message_not_joined in Hin|].
      repeat (apply elem_of_cons in Hin as [[=]|Hin]).
      by apply elem_of_nil in Hin. }
  clear Hin.
  destruct (first_found_Some _ _ _ _ Ef) as (i & args' & Hi & -> & -> & Hr & _).
  pose proof (run_threads_inv _ _ Erun) as Hall.
  destruct (Forall2_lookup_r _ _ _ _ _ Hall Hi) as (args & Hargs & Hsearch).
  apply list_lookup_fmap_Some in Hargs as (k & -> & Hk).
  apply lookup_seqZ in Hk as [-> Hk]. rewrite Z.add_0_l in *.
  apply search_inv in Hsearch as (r & Hloop & ->). simpl in Hr.
  destruct (search_loop_sound _ _ 0 _ ltac:(lia) Hloop) as [->|[Hb Hmatch]];
    [lia|].
  simpl in Hb, Hmatch.
  apply matches_drop in Hmatch; [|lia].
  exists fileContent, n, m, (Z.of_nat (Z.to_nat (Z.of_nat i * chunkSize)) + r).
  do 3 (split; [done|]). split; [lia|].
  unfold MAX_THREADS in *.
  destruct Hmode as [[Hlt [= -> -> ->]]|[Hle [= -> -> ->]]].
  - assert (i = 0%nat) as -> by lia.
    revert Hb; cases_Z; repeat split; try lia; done.
  - assert (0 <= Z.of_nat i * (n ÷ 16) <= 15 * (n ÷ 16)) by nia.
    revert Hb; cases_Z; repeat split; try lia; done.
Qed.

(** The pattern of [main] in a file of sixteen bytes: one thread, and the
    message is printed for the occurrence at offset 2. *)
Lemma search_in_file_found_is_real_witness :
  ∃ fileContent n m i,
    map_view_of_file
      (os_mapping (list_byte_of_string "xxThisIsTheEndxx" ++ [x00]) "0.000000")
    = inr fileContent
    ∧ strlen fileContent = Ok n
    ∧ strlen (list_byte_of_string "ThisIsTheEnd" ++ [x00]) = Ok m
    ∧ 1 <= m <= n
    ∧ 0 <= i ∧ i + m <= n + Z.rem n MAX_THREADS
    ∧ (m <= n ÷ MAX_THREADS → i + m <= n)
    ∧ matches fileContent (list_byte_of_string "ThisIsTheEnd" ++ [x00]) m i.
Proof.
  apply (search_in_file_found_is_real
           (os_mapping (list_byte_of_string "xxThisIsTheEndxx" ++ [x00])
              "0.000000")
           "textfile.txt" (list_byte_of_string "ThisIsTheEnd" ++ [x00])
           [CallGenerateTable; BeginThread 0; WaitForSingleObject 0;
            CloseThread 0; Printf (found_message "ThisIsTheEnd" "0.000000")]
           "ThisIsTheEnd" "0.000000").
  - vm_compute. reflexivity.
  - repeat constructor.
Defined.

(** ** One thread *)

Lemma read_7bit (mem : list byte) (limit : Z) :
  Forall (λ c, uchar c < 128) mem → limit <= Z.of_nat (length mem) →
  ∀ i, 0 <= i < limit → ∃ c, read mem i = Some c ∧ uchar c < 128.
Proof.
  intros Hall Hlen i Hi.
  destruct (lookup_lt_is_Some_2 mem (Z.to_nat i)) as [c Hc]; [lia|].
  exists c. split; [apply read_Some; split; [lia|done]|].
  exact (Forall_lookup_1 _ _ _ _ Hall Hc).
Qed.

(** X14. The run with one thread, where the thread is given the whole
    text and [n % 16] bytes more.  Let the lengths be valid, the chunk size
    [n / 16] be below the pattern length, thread 0 be started, and the
    [n + n % 16] bytes from the start of the mapped memory be readable and
    below 128.  Then the run prints Found, and returns without a release,
    when the pattern stands somewhere in these [n + n % 16] bytes, behind
    the NUL of the text or not; and it prints the not-found message and
    releases the view and the two handles when it stands nowhere in
    them. *)
Theorem search_in_file_one_thread (os : OS) (file_name : string)
    (fileContent substring : list byte) (n m : Z) :
  create_file os = None →
  create_file_mapping os = None →
  map_view_of_file os = inr fileContent →
  begin_thread os 0 = true →
  strlen fileContent = Ok n →
  strlen substring = Ok m →
  1 <= m <= n →
  n ÷ MAX_THREADS < m →
  (∀ i, 0 <= i < n + Z.rem n MAX_THREADS →
        ∃ c, read fileContent i = Some c ∧ uchar c < 128) →
  ((∃ i, 0 <= i <= n + Z.rem n MAX_THREADS - m
         ∧ matches fileContent substring m i) →
   search_in_file os file_name substring
   = Ok [CallGenerateTable; BeginThread 0; WaitForSingleObject 0;
         CloseThread 0;
         Printf (found_message (show_c_string substring m) (elapsed os))])
  ∧ ((∀ i, 0 <= i <= n + Z.rem n MAX_THREADS - m →
           ¬ matches fileContent substring m i) →
     search_in_file os file_name substring
     = Ok [CallGenerateTable; BeginThread 0; WaitForSingleObject 0;
           CloseThread 0;
           Printf (not_found_message (show_c_string substring m) (elapsed os));
           UnmapViewOfFile; CloseMapping; CloseFile]).
Proof.
  intros H1 H2 H3 Hbt Hn Hm Hlen Hmode Htext.
  rewrite (search_in_file_valid os file_name fileContent substring n m)
    by done.
  pose proof (strlen_le _ _ Hm) as Hml.
  destruct (generateBadCharacterShiftTable_spec substring m
              (replicate (Z.to_nat UNIQUE_CHARS) 0))
    as (table & Htable & Htab); [lia|apply length_replicate|].
  destruct (chunking_cases n m) as (Hex & _ & [[_ E]|[Hle _]]); [lia| |lia].
  unfold search_chunks. rewrite Htable, E. simpl.
  simpl. change (Z.of_nat 0 + 0) with 0. rewrite Hbt. simpl.
  set (args := thread_args fileContent substring m table n
                 (Z.rem n MAX_THREADS) 1 0).
  assert (1 <= patternLength args) as A1 by (simpl; lia).
  assert (table_for (pattern args) (patternLength args)
            (badCharShiftTable args)) as A2 by done.
  assert (∀ i, 0 <= i < patternLength args → is_Some (read (pattern args) i))
    as A3.
  { intros i Hi. apply read_lt. simpl in Hi. simpl. lia. }
  assert (∀ i, 0 <= i < textLength args →
               ∃ c, read (text args) i = Some c ∧ uchar c < 128) as A4.
  { intros i Hi. apply Htext. exact Hi. }
  destruct (search_loop_decides args A1 A2 A3 (textLength args) A4
              (search_fuel args) 0) as (r & Hr & Hspec); [|done|done|].
  { unfold search_fuel. lia. }
  rewrite (search_Ok _ _ Hr). simpl. split.
  + intros (i & Hi & Hocc). destruct Hspec as [[-> Hno]|(Hr0 & _)].
    * exfalso. apply (Hno i); [simpl; lia|done].
    * cases_Z; [done|lia].
  + intros Hno. destruct Hspec as [[-> _]|(Hr0 & Hocc & _)]; [done|].
    exfalso. apply (Hno r); [simpl in Hr0; lia|done].
Qed.

(** A file of twenty bytes followed by zeros, and the pattern of [main]:
    the thread is given 24 bytes, and the pattern is in none of them. *)
Lemma search_in_file_one_thread_witness :
  ((∃ i, 0 <= i <= 20 + Z.rem 20 MAX_THREADS - 12
         ∧ matches (list_byte_of_string "the end is not here." ++ replicate 16 x00)
                   (list_byte_of_string "ThisIsTheEnd" ++ [x00]) 12 i) →
   search_in_file
     (os_mapping (list_byte_of_string "the end is not here." ++ replicate 16 x00)
                 "0.000000")
     "textfile.txt" (list_byte_of_string "ThisIsTheEnd" ++ [x00])
   = Ok [CallGenerateTable; BeginThread 0; WaitForSingleObject 0;
         CloseThread 0;
         Printf (found_message
                   (show_c_string (list_byte_of_string "ThisIsTheEnd" ++ [x00]) 12)
                   "0.000000")])
  ∧ ((∀ i, 0 <= i <= 20 + Z.rem 20 MAX_THREADS - 12 →
           ¬ matches (list_byte_of_string "the end is not here." ++ replicate 16 x00)
                     (list_byte_of_string "ThisIsTheEnd" ++ [x00]) 12 i) →
     search_in_file
       (os_mapping (list_byte_of_string "the end is not here." ++ replicate 16 x00)
                   "0.000000")
       "textfile.txt" (list_byte_of_string "ThisIsTheEnd" ++ [x00])
     = Ok [CallGenerateTable; BeginThread 0; WaitForSingleObject 0;
           CloseThread 0;
           Printf (not_found_message
                     (show_c_string (list_byte_of_string "ThisIsTheEnd" ++ [x00]) 12)
                     "0.000000");
           UnmapViewOfFile; CloseMapping; CloseFile]).
Proof.
  apply (search_in_file_one_thread
           (os_mapping
              (list_byte_of_string "the end is not here." ++ replicate 16 x00)
              "0.000000")
           "textfile.txt"
           (list_byte_of_string "the end is not here." ++ replicate 16 x00)
           (list_byte_of_string "ThisIsTheEnd" ++ [x00]) 20 12);
    try reflexivity.
  - lia.
  - apply read_7bit; [|by vm_compute].
    repeat (constructor; [reflexivity|]). constructor.
Defined.

(** ** main *)



(** ** What can go wrong in search_in_file *)

Lemma strlen_Fault (s : list byte) (f : fault) :
  strlen s = Fault f → f = UnterminatedString ∧ x00 ∉ s.
Proof.
  induction s as [|c s IH]; simpl.
  - intros [= <-]. split; [done|]. apply not_elem_of_nil.
  - destruct (decide (c = x00)) as [->|Hc]; [done|].
    destruct (strlen s) as [n|f']; simpl; [done|].
    intros [= ->]. destruct IH as [-> Hs]; [done|]. split; [done|].
    apply not_elem_of_cons. split; [congruence|done].
Qed.

Lemma read_None (mem : list byte) (i : Z) :
  0 <= i → read mem i = None → Z.of_nat (length mem) <= i.
Proof.
  unfold read. cases_Z; [lia|]. intros _ Hi%lookup_ge_None. lia.
Qed.

Lemma compare_backward_faults fuel text pattern s idx f :
  (Z.to_nat (idx + 1) ≤ fuel)%nat → 0 <= s →
  idx < Z.of_nat (length pattern) →
  compare_backward fuel text pattern s idx = Fault f →
  ∃ i, 0 <= i <= idx ∧ f = BadTextIndex (s + i)
       ∧ Z.of_nat (length text) <= s + i.
Proof.
  revert idx. induction fuel as [|fuel IH]; intros idx Hf Hs Hidx; simpl;
    cases_Z; try done; try lia.
  destruct (read_lt pattern idx) as [p Hp]; [lia|].
  rewrite (read_pattern_Ok _ _ _ Hp). simpl.
  unfold read_text. destruct (read text (s + idx)) as [t|] eqn:Ht; simpl.
  - case_match; [|done]. intros Hfault.
    destruct (IH (idx - 1)) as (i & Hi & -> & Hlen); try done; try lia.
    exists i. split; [lia|done].
  - intros [= <-]. exists idx. split; [lia|]. split; [done|].
    apply read_None; [lia|done].
Qed.

Lemma compare_backward_read fuel text pattern s idx j :
  compare_backward fuel text pattern s idx = Ok j → 0 <= j →
  is_Some (read text (s + j)).
Proof.
  revert idx. induction fuel as [|fuel IH]; intros idx; simpl; cases_Z;
    try done; try (intros [= <-]; lia).
  destruct (read_pattern _ _); simpl; [|done].
  unfold read_text. destruct (read text (s + idx)) as [t|] eqn:Ht; simpl;
    [|done].
  case_match; [apply IH|]. intros [= <-] _. by rewrite Ht.
Qed.

Lemma search_step_faults_any args s f :
  0 <= s → s <= textLength args - patternLength args →
  patternLength args <= Z.of_nat (length (pattern args)) →
  length (badCharShiftTable args) = Z.to_nat UNIQUE_CHARS →
  search_step args s = Fault f →
  (∃ c i, f = BadTableIndex (schar c)
          ∧ -128 <= schar c < 0
          ∧ 0 <= i < textLength args
          ∧ read (text args) i = Some c)
  ∨ (∃ i, f = BadTextIndex i
          ∧ Z.of_nat (length (text args)) <= i < textLength args).
Proof.
  intros Hs Hsn Hm Ht. unfold search_step.
  destruct (compare_backward _ _ _ _ _) as [j|f'] eqn:Ec; simpl.
  - cases_Z; [done|].
    pose proof (compare_backward_le _ _ _ _ _ _ Ec) as Hj.
    destruct (compare_backward_read _ _ _ _ _ _ Ec) as [c Hc]; [lia|].
    rewrite (read_text_Ok _ _ _ Hc). simpl.
    unfold read_table. pose proof (schar_range c). unfold UNIQUE_CHARS in *.
    destruct (Z.leb_spec 0 (schar c)) as [Hc0|Hc0]; simpl.
    + destruct (Z.ltb_spec (schar c) 256); [|lia].
      destruct (lookup_lt_is_Some_2 (badCharShiftTable args)
                  (Z.to_nat (schar c))) as [v ->]; [lia|]. done.
    + intros [= <-]. left. exists c, (s + j). repeat split; try lia. done.
  - intros [= ->]. right.
    apply compare_backward_faults in Ec as (i & Hi & -> & Hlen);
      [|lia|done|lia].
    exists (s + i). split; [done|lia].
Qed.

Lemma search_faults_any args f :
  patternLength args <= Z.of_nat (length (pattern args)) →
  length (badCharShiftTable args) = Z.to_nat UNIQUE_CHARS →
  search args = Fault f →
  (∃ c i, f = BadTableIndex (schar c)
          ∧ -128 <= schar c < 0
          ∧ 0 <= i < textLength args
          ∧ read (text args) i = Some c)
  ∨ (∃ i, f = BadTextIndex i
          ∧ Z.of_nat (length (text args)) <= i < textLength args).
Proof.
  intros Hm Ht. unfold search.
  destruct (search_loop (search_fuel args) args 0) as [r|f'] eqn:E; simpl;
    [done|].
  intros [= ->]. revert E.
  assert (Z.to_nat (textLength args - patternLength args - 0 + 1)
          ≤ search_fuel args)%nat as Hfuel by (unfold search_fuel; lia).
  assert (0 <= 0) as Hs by lia.
  revert Hfuel Hs. generalize 0 at 1 3 4. generalize (search_fuel args).
  induction n as [|fuel IH]; intros s Hfuel Hs; simpl; cases_Z; try done;
    try lia.
  destruct (search_step args s) as [[r|s']|f0] eqn:Es; simpl; [done| |].
  - apply search_step_progress in Es. apply IH; lia.
  - intros [= ->]. by apply (search_step_faults_any args s).
Qed.

Lemma run_threads_fault searchArgs f :
  run_threads searchArgs = Fault f →
  ∃ args, args ∈ searchArgs ∧ search args = Fault f.
Proof.
  induction searchArgs as [|a l IH]; simpl; [done|].
  destruct (search a) as [a'|f'] eqn:Ea; simpl.
  - destruct (run_threads l) as [l'|f']; simpl; [done|].
    intros [= ->]. destruct IH as (args & Hin & Hs); [done|].
    exists args. split; [by right|done].
  - intros [= ->]. exists a. split; [by left|done].
Qed.



(** ** The arithmetic of search *)

(** X17. The [int] arithmetic of [search] stays within the lengths.  With
    a non-empty pattern and its table, in every iteration of the outer
    loop that goes on to the next one: the index [patternIndex] of the
    mismatch is within the pattern, the offset [patternShift +
    patternIndex] is within the chunk, the byte there is below 128, the
    table entry is between [-1] and [patternLength - 1], the difference
    [patternIndex - entry] is between [-patternLength] and
    [patternLength], and the new shift is greater than the old one and at
    most [textLength].  No value computed exceeds [textLength] or falls
    below [-patternLength]. *)
Theorem search_step_no_overflow (args : SearchArgs) (s s' : Z) :
  1 <= patternLength args →
  table_for (pattern args) (patternLength args) (badCharShiftTable args) →
  0 <= s <= textLength args - patternLength args →
  search_step args s = Ok (Continue s') →
  ∃ j c entry,
    read_text (text args) (s + j) = Ok c
    ∧ read_table (badCharShiftTable args) (schar c) = Ok entry
    ∧ 0 <= j < patternLength args
    ∧ 0 <= s + j < textLength args
    ∧ 0 <= schar c < 128
    ∧ -1 <= entry < patternLength args
    ∧ - patternLength args < j - entry <= patternLength args
    ∧ s' = s + max 1 (j - entry)
    ∧ s < s' <= textLength args.
Proof.
  intros Hm [Hlen Htab] Hs Hstep.
  destruct (search_step_Continue _ _ _ Hstep)
    as (j & c & entry & Hj & Hj0 & Hc & He & ->).
  apply compare_backward_le in Hj.
  exists j, c, entry. do 2 (split; [done|]).
  pose proof (schar_range c) as Hsc. pose proof (uchar_range c) as Huc.
  assert (0 <= schar c ∧ -1 <= entry < patternLength args) as [Hc0 Hentry].
  { revert He. unfold read_table.
    destruct (Z.leb_spec 0 (schar c)) as [Hc0|]; simpl; [|done].
    destruct (_ <? _); [|done].
    assert (schar c = uchar c) as ->.
    { revert Hc0. unfold schar. cases_Z; lia. }
    destruct (Htab c) as (v & -> & Hv & _). intros [= <-]. lia. }
  pose proof (max_1_ge (j - entry)).
  pose proof (max_1_le (j - entry) (patternLength args)).
  repeat split; try lia.
Qed.

(** The first iteration on the chunk "abababc" with the pattern "abc": the
    mismatch is at index 2, on the byte "a", whose entry is 0, and the shift
    goes from 0 to 2. *)
Lemma search_step_no_overflow_witness :
  ∃ j c entry,
    read_text (list_byte_of_string "abababc") (0 + j) = Ok c
    ∧ read_table (replicate 97 (-1) ++ [0; 1; 2] ++ replicate 156 (-1))
                 (schar c) = Ok entry
    ∧ 0 <= j < 3
    ∧ 0 <= 0 + j < 7
    ∧ 0 <= schar c < 128
    ∧ -1 <= entry < 3
    ∧ - 3 < j - entry <= 3
    ∧ 2 = 0 + max 1 (j - entry)
    ∧ 0 < 2 <= 7.
Proof.
  destruct (generateBadCharacterShiftTable_spec
              (list_byte_of_string "abc") 3 (replicate 256 0))
    as (table & Htable & Htab); [simpl; lia|reflexivity|].
  vm_compute in Htable. injection Htable as <-.
  apply (search_step_no_overflow
           {| text := list_byte_of_string "abababc"; textLength := 7;
              pattern := list_byte_of_string "abc"; patternLength := 3;
              badCharShiftTable :=
                replicate 97 (-1) ++ [0; 1; 2] ++ replicate 156 (-1);
              found_at := -1 |} 0 2).
  - simpl. lia.
  - exact Htab.
  - simpl. lia.
  - vm_compute. reflexivity.
Defined.
